(** * Loco3D/curves: polynomial curves and linear variables

    A shallow embedding of [include/curves/polynomial.h] and
    [include/curves/linear_variable.h].

    Numeric model.  The scalar type [Numeric]/[Time] is a C++ [double].
    It is embedded twice.

    - In [Binary64] it is Rocq's primitive binary64 float: every
      operation rounds as IEEE 754 prescribes, a quotient by zero is an
      infinity or a NaN.  Whatever depends on rounding, on overflow or
      on a division by zero is stated and evaluated there.

    - In [Eigen], [Polynomial] and [LinearVariable] it is the field
      [Qc] of canonical rationals, where every operation is exact.
      These modules carry the statements that do not depend on the
      rounding of finite values: control flow, errors, sizes, and
      results the source computes with operations that are exact on
      finite binary64 values too (a product with 0 or 1, a sum with 0,
      a difference [x - x]).  Lemmas that do use the field laws of
      [Qc] say so: they describe the source's formulas in exact
      arithmetic, not what a binary64 run returns.  Frobenius norms,
      which need a square root, are taken in [R].

    Integer model.  [std::size_t] values are integers in [0, 2^64) and
    [int] values integers in [-2^31, 2^31); the conversions the source
    performs are written out ([to_size_t], [to_int]).

    Control model.  A C++ call either returns, throws one of the
    standard exceptions, or violates a precondition of the Eigen
    library (an out-of-range column index, an operation on operands of
    different sizes, the dereference of an end iterator); the last is
    the outcome [Undefined]. *)

From Stdlib Require Import Reals Lra String Bool ZArith QArith Qcanon List Lia.
From Stdlib Require PrimFloat FloatOps SpecFloat.
Import ListNotations.

Set Implicit Arguments.

(** ** Outcomes of a call *)

Inductive exception : Type :=
  | invalid_argument (what : string)
  | runtime_error (what : string)
  | length_error (what : string).

Inductive outcome (A : Type) : Type :=
  | Returns (a : A)
  | Throws (e : exception)
  | Undefined.

Arguments Returns {A} a.
Arguments Throws {A} e.
Arguments Undefined {A}.

Definition bind {A B : Type} (m : outcome A) (f : A -> outcome B) : outcome B :=
  match m with
  | Returns a => f a
  | Throws e => Throws e
  | Undefined => Undefined
  end.

Notation "x <- m ;; k" := (bind m (fun x => k))
  (at level 61, m at next level, right associativity).
Notation "m ;;; k" := (bind m (fun _ => k))
  (at level 61, right associativity).

(** what a call produced *)
Definition throws_invalid_argument {A : Type} (o : outcome A) : Prop :=
  match o with
  | Throws (invalid_argument _) => True
  | _ => False
  end.

Definition never_throws {A : Type} (o : outcome A) : Prop :=
  match o with
  | Throws _ => False
  | _ => True
  end.

(** ** Machine integers *)

Definition to_size_t (z : Z) : Z := (z mod 2 ^ 64)%Z.
Definition to_int (z : Z) : Z := ((z + 2 ^ 31) mod 2 ^ 32 - 2 ^ 31)%Z.
Definition INT_MAX : Z := (2 ^ 31 - 1)%Z.

(** ** Scalars *)

Definition Qcltb (x y : Qc) : bool :=
  match (x ?= y)%Qc with Lt => true | _ => false end.

Definition of_Z (z : Z) : Qc := Q2Qc (inject_Z z).

Definition Qceqb (x y : Qc) : bool :=
  match (x ?= y)%Qc with Eq => true | _ => false end.

Definition Qcleb (x y : Qc) : bool := negb (Qcltb y x).

(** ** The part of Eigen the two headers use *)

Module Eigen.

(** [Eigen::Matrix<Numeric, Dynamic, 1>] *)
Definition vec : Type := list Qc.

(** [Eigen::Matrix<Numeric, Dynamic, Dynamic>], as its list of columns
    together with its number of rows (a matrix may have rows and no
    column). *)
Record matrix : Type := mkMatrix { rows : nat; columns : list vec }.

Definition cols (m : matrix) : Z := Z.of_nat (length (columns m)).
Definition size (m : matrix) : Z := (Z.of_nat (rows m) * cols m)%Z.

(** every stored column has [rows] entries *)
Definition rectangular (m : matrix) : Prop :=
  Forall (fun c => length c = rows m) (columns m).

Definition vzero (n : nat) : vec := repeat 0%Qc n.
Definition mzero (r c : nat) : matrix := mkMatrix r (repeat (vzero r) c).

(** [Identity(r, c)]: entry (i, j) is 1 when [i = j] *)
Definition identity (r c : nat) : matrix :=
  mkMatrix r
    (map (fun j => map (fun i => if Nat.eqb i j then 1%Qc else 0%Qc) (seq 0 r))
         (seq 0 c)).

(** coefficient-wise operations on operands of one size *)
Fixpoint zip_with (f : Qc -> Qc -> Qc) (a b : vec) : vec :=
  match a, b with
  | x :: a', y :: b' => f x y :: zip_with f a' b'
  | _, _ => []
  end.

Definition vplus (a b : vec) : vec := zip_with Qcplus a b.
Definition vminus (a b : vec) : vec := zip_with Qcminus a b.
Definition vscale (k : Qc) (a : vec) : vec := map (Qcmult k) a.
Definition vdiv (a : vec) (k : Qc) : vec := map (fun x => (x / k)%Qc) a.
Definition vneg (a : vec) : vec := map Qcopp a.

(** [a + b] and [a - b]: Eigen requires the operands to have one size *)
Definition vadd (a b : vec) : outcome vec :=
  if Nat.eqb (length a) (length b) then Returns (vplus a b) else Undefined.
Definition vsub (a b : vec) : outcome vec :=
  if Nat.eqb (length a) (length b) then Returns (vminus a b) else Undefined.

Definition same_shape (a b : matrix) : bool :=
  Nat.eqb (rows a) (rows b) && Nat.eqb (length (columns a)) (length (columns b)).

Fixpoint zip_cols (f : vec -> vec -> vec) (a b : list vec) : list vec :=
  match a, b with
  | x :: a', y :: b' => f x y :: zip_cols f a' b'
  | _, _ => []
  end.

Definition madd (a b : matrix) : outcome matrix :=
  if same_shape a b
  then Returns (mkMatrix (rows a) (zip_cols vplus (columns a) (columns b)))
  else Undefined.
Definition msub (a b : matrix) : outcome matrix :=
  if same_shape a b
  then Returns (mkMatrix (rows a) (zip_cols vminus (columns a) (columns b)))
  else Undefined.
Definition mneg (a : matrix) : matrix :=
  mkMatrix (rows a) (map vneg (columns a)).

(** [m.col(i)]: the index has to be one of the matrix *)
Definition col (m : matrix) (i : Z) : outcome vec :=
  if ((0 <=? i) && (i <? cols m))%Z
  then match nth_error (columns m) (Z.to_nat i) with
       | Some c => Returns c
       | None => Undefined
       end
  else Undefined.

(** [B * x], a combination of the columns of [B] *)
Fixpoint mat_vec_cols (r : nat) (cs : list vec) (x : vec) : vec :=
  match cs, x with
  | c :: cs', xi :: x' => vplus (vscale xi c) (mat_vec_cols r cs' x')
  | _, _ => vzero r
  end.

Definition mat_vec (m : matrix) (x : vec) : outcome vec :=
  if Nat.eqb (length (columns m)) (length x)
  then Returns (mat_vec_cols (rows m) (columns m) x)
  else Undefined.

(** [squaredNorm()] and the Frobenius [norm()] *)
Definition vsquaredNorm (a : vec) : Qc := fold_right (fun x s => (x * x + s)%Qc) 0%Qc a.
Definition msquaredNorm (m : matrix) : Qc :=
  fold_right (fun c s => (vsquaredNorm c + s)%Qc) 0%Qc (columns m).
Definition vnorm (a : vec) : R := sqrt (Q2R (vsquaredNorm a)).
Definition mnorm (m : matrix) : R := sqrt (Q2R (msquaredNorm m)).

(** [NumTraits<double>::dummy_precision()] *)
Definition dummy_precision : R := (/ 1000000000000)%R.

(** [numext::mini(x, y)] *)
Definition mini (x y : Qc) : Qc := if Qcltb y x then y else x.

(** [a.isApprox(b, prec)] on matrices of one shape:
    [(a - b).squaredNorm() <= prec * prec * mini(a.squaredNorm(), b.squaredNorm())] *)
Definition misApprox (a b : matrix) (prec : Qc) : outcome bool :=
  d <- msub a b ;;
  Returns (Qcleb (msquaredNorm d)
             (prec * prec * mini (msquaredNorm a) (msquaredNorm b))%Qc).

End Eigen.
Import Eigen.

(** ** polynomial.h *)

Module Polynomial.

Local Open Scope Z_scope.

(** The attributes of [struct polynomial]; [Safe] is a template
    parameter and is passed to every operation. *)
Record polynomial : Type := mkPolynomial {
  dim_ : nat;
  coefficients_ : matrix;
  degree_ : Z;
  T_min_ : Qc;
  T_max_ : Qc
}.

Definition safe_check (Safe : bool) (p : polynomial) : outcome unit :=
  if Safe then
    if Qcltb (T_max_ p) (T_min_ p) then
      Throws (invalid_argument "Tmin should be inferior to Tmax")
    else if negb (cols (coefficients_ p) =? to_int (to_size_t (degree_ p + 1))) then
      Throws (runtime_error "Spline order and coefficients do not match")
    else Returns tt
  else Returns tt.

(** [init_coeffs]: a [dim_ x size] matrix whose column [i] is assigned
    the [i]-th point; the assignment to a column needs a point of
    [dim_] entries. *)
Fixpoint init_cols (dim : nat) (points : list vec) : outcome (list vec) :=
  match points with
  | [] => Returns []
  | pt :: rest =>
      if Nat.eqb (length pt) dim
      then cs <- init_cols dim rest ;; Returns (pt :: cs)
      else Undefined
  end.

Definition init_coeffs (dim : nat) (points : list vec) : outcome matrix :=
  cs <- init_cols dim points ;; Returns (mkMatrix dim cs).

(** [polynomial()]: [degree_] has no initialiser, its value is whatever
    the storage holds. *)
Definition polynomial_default (indeterminate : Z) : polynomial :=
  mkPolynomial 0 (mkMatrix 0 []) indeterminate 0%Qc 0%Qc.

(** [polynomial(const coeff_t&, min, max)] *)
Definition polynomial_of_coeff (Safe : bool) (coefficients : matrix)
    (min max : Qc) : outcome polynomial :=
  let p := mkPolynomial (rows coefficients) coefficients
             (to_size_t (cols coefficients - 1)) min max in
  safe_check Safe p ;;; Returns p.

(** [polynomial(const T_Point&, min, max)] and
    [polynomial(In zeroOrderCoefficient, In out, min, max)]:
    [begin()->size()] dereferences the first element. *)
Definition polynomial_of_points (Safe : bool) (coefficients : list vec)
    (min max : Qc) : outcome polynomial :=
  match coefficients with
  | [] => Undefined
  | first :: _ =>
      let dim := length first in
      c <- init_coeffs dim coefficients ;;
      let p := mkPolynomial dim c (to_size_t (cols c - 1)) min max in
      safe_check Safe p ;;; Returns p
  end.

(** [polynomial(init, end, min, max)], boundary condition C0 *)
Definition polynomial_C0 (Safe : bool) (init end_ : vec) (min max : Qc)
    : outcome polynomial :=
  if negb (Nat.eqb (length init) (length end_)) then
    Throws (invalid_argument "init and end points must have the same dimensions.")
  else
    d <- vsub end_ init ;;
    let coeffs := [init; vdiv d (max - min)%Qc] in
    c <- init_coeffs (length init) coeffs ;;
    let p := mkPolynomial (length init) c 1 min max in
    safe_check Safe p ;;; Returns p.

(** Boundary conditions C1 and C2 solve a square system with
    [m.inverse()]; the inverse of a fixed-size matrix (given by its
    rows) is Eigen's and is a parameter here. *)
Section BoundaryFit.

Variable inverse : list (list Qc) -> list (list Qc).

Definition dot (a b : list Qc) : Qc :=
  fold_right Qcplus 0%Qc (zip_with Qcmult a b).

(** the loop over the dimensions: row [i] of the coefficients is
    [(m_inv * bc)^T], [bc] holding entry [i] of every boundary value *)
Definition solve_rows (dim : nat) (m_inv : list (list Qc))
    (boundary : list vec) : list (list Qc) :=
  map (fun i =>
         let bc := map (fun b => nth i b 0%Qc) boundary in
         map (fun r => dot r bc) m_inv)
      (seq 0 dim).

Definition coeff_of_rows (dim ncols : nat) (rs : list (list Qc)) : matrix :=
  mkMatrix dim (map (fun j => map (fun r => nth j r 0%Qc) rs) (seq 0 ncols)).

(** [polynomial(init, d_init, end, d_end, min, max)] *)
Definition polynomial_C1 (Safe : bool) (init d_init end_ d_end : vec)
    (min max : Qc) : outcome polynomial :=
  if negb (Nat.eqb (length init) (length end_)) then
    Throws (invalid_argument "init and end points must have the same dimensions.")
  else if negb (Nat.eqb (length init) (length d_init)) then
    Throws (invalid_argument "init and d_init points must have the same dimensions.")
  else if negb (Nat.eqb (length init) (length d_end)) then
    Throws (invalid_argument "init and d_end points must have the same dimensions.")
  else
    let dim := length init in
    let T := (max - min)%Qc in
    let m := [ [1; 0; 0; 0];
               [1; T; T * T; T * T * T];
               [0; 1; 0; 0];
               [0; 1; of_Z 2 * T; of_Z 3 * T * T] ]%Qc in
    let m_inv := inverse m in
    let c := coeff_of_rows dim 4
               (solve_rows dim m_inv [init; end_; d_init; d_end]) in
    let p := mkPolynomial dim c 3 min max in
    safe_check Safe p ;;; Returns p.

(** [polynomial(init, d_init, dd_init, end, d_end, dd_end, min, max)] *)
Definition polynomial_C2 (Safe : bool)
    (init d_init dd_init end_ d_end dd_end : vec)
    (min max : Qc) : outcome polynomial :=
  if negb (Nat.eqb (length init) (length end_)) then
    Throws (invalid_argument "init and end points must have the same dimensions.")
  else if negb (Nat.eqb (length init) (length d_init)) then
    Throws (invalid_argument "init and d_init points must have the same dimensions.")
  else if negb (Nat.eqb (length init) (length d_end)) then
    Throws (invalid_argument "init and d_end points must have the same dimensions.")
  else if negb (Nat.eqb (length init) (length dd_init)) then
    Throws (invalid_argument "init and dd_init points must have the same dimensions.")
  else if negb (Nat.eqb (length init) (length dd_end)) then
    Throws (invalid_argument "init and dd_end points must have the same dimensions.")
  else
    let dim := length init in
    let T := (max - min)%Qc in
    let m := [ [1; 0; 0; 0; 0; 0];
               [1; T; T * T; T ^ 3; T ^ 4; T ^ 5];
               [0; 1; 0; 0; 0; 0];
               [0; 1; of_Z 2 * T; of_Z 3 * T * T; of_Z 4 * T ^ 3; of_Z 5 * T ^ 4];
               [0; 0; of_Z 2; 0; 0; 0];
               [0; 0; of_Z 2; of_Z 6 * T; of_Z 12 * T * T; of_Z 20 * T ^ 3] ]%Qc in
    let m_inv := inverse m in
    let c := coeff_of_rows dim 6
               (solve_rows dim m_inv
                  [init; end_; d_init; d_end; dd_init; dd_end]) in
    let p := mkPolynomial dim c 5 min max in
    safe_check Safe p ;;; Returns p.

End BoundaryFit.

Definition check_if_not_empty (p : polynomial) : outcome unit :=
  if size (coefficients_ p) =? 0 then
    Throws (runtime_error
      "Error in polynomial : there is no coefficients set / did you use empty constructor ?")
  else Returns tt.

Definition out_of_range (p : polynomial) (t : Qc) : bool :=
  Qcltb t (T_min_ p) || Qcltb (T_max_ p) t.

(** the loop of [operator()]: [i] runs from [k - 1] down to [0] *)
Fixpoint horner_loop (c : matrix) (dt : Qc) (k : nat) (h : vec) : outcome vec :=
  match k with
  | O => Returns h
  | S i =>
      ci <- col c (Z.of_nat i) ;;
      h' <- vadd (vscale dt h) ci ;;
      horner_loop c dt i h'
  end.

(** [operator()(t)] *)
Definition eval (Safe : bool) (p : polynomial) (t : Qc) : outcome vec :=
  check_if_not_empty p ;;;
  if out_of_range p t && Safe then
    Throws (invalid_argument
      "error in polynomial : time t to evaluate should be in range [Tmin, Tmax] of the curve")
  else
    let dt := (t - T_min_ p)%Qc in
    h <- col (coefficients_ p) (degree_ p) ;;
    horner_loop (coefficients_ p) dt
      (Z.to_nat (to_int (to_size_t (degree_ p - 1)) + 1)) h.

(** [fact(n, order)]: the product of [n - i] for [i < order], each
    factor a [size_t] difference *)
Fixpoint fact_from (n : Z) (i : Z) (count : nat) (res : Qc) : Qc :=
  match count with
  | O => res
  | S count' => fact_from n (i + 1) count' (res * of_Z (to_size_t (n - i)))%Qc
  end.

Definition fact (n : Z) (order : nat) : Qc := fact_from n 0 order 1%Qc.

(** the loop of [derivate]: [count] iterations from index [i] *)
Fixpoint derivate_loop (c : matrix) (dt : Qc) (order : nat) (count : nat)
    (i : Z) (cdt : Qc) (currentPoint_ : vec) : outcome vec :=
  match count with
  | O => Returns currentPoint_
  | S count' =>
      ci <- col c i ;;
      cur <- vadd currentPoint_
               (vscale (fact (to_size_t i) order) (vscale cdt ci)) ;;
      derivate_loop c dt order count' (i + 1) (cdt * dt)%Qc cur
  end.

(** [derivate(t, order)] *)
Definition derivate (Safe : bool) (p : polynomial) (t : Qc) (order : nat)
    : outcome vec :=
  check_if_not_empty p ;;;
  if out_of_range p t && Safe then
    Throws (invalid_argument
      "error in polynomial : time t to evaluate derivative should be in range [Tmin, Tmax] of the curve")
  else
    let dt := (t - T_min_ p)%Qc in
    let first := to_int (Z.of_nat order) in
    let last := to_int (to_size_t (degree_ p + 1)) in
    derivate_loop (coefficients_ p) dt order (Z.to_nat (last - first))
      first 1%Qc (vzero (dim_ p)).

(** [deriv_coeff]: column [i] of the result is column [i + 1] times [i + 1] *)
Fixpoint scale_from (i : Z) (cs : list vec) : list vec :=
  match cs with
  | [] => []
  | c :: cs' => vscale (of_Z (i + 1)) c :: scale_from (i + 1) cs'
  end.

Definition deriv_coeff (coeff : matrix) : outcome matrix :=
  match columns coeff with
  | [] => Undefined
  | [_] => Returns (mzero (rows coeff) 1)
  | _ :: higher => Returns (mkMatrix (rows coeff) (scale_from 0 higher))
  end.

(** [compute_derivate(order)] *)
Fixpoint compute_derivate (Safe : bool) (order : nat) (p : polynomial)
    : outcome polynomial :=
  check_if_not_empty p ;;;
  match order with
  | O => Returns p
  | S order' =>
      coeff_derivated <- deriv_coeff (coefficients_ p) ;;
      deriv <- polynomial_of_coeff Safe coeff_derivated (T_min_ p) (T_max_ p) ;;
      compute_derivate Safe order' deriv
  end.

(** [coeffAtDegree(degree)] *)
Definition coeffAtDegree (p : polynomial) (degree : Z) : outcome vec :=
  if degree <=? degree_ p then col (coefficients_ p) degree else Returns [].

(** *** Well-formed curves

    The attributes are public, so a [polynomial] value can hold
    anything.  A curve built by a constructor has a rectangular matrix
    and the [dim_] and [degree_] of that matrix; in safe mode
    [safe_check] moreover lets through only an ordered interval and a
    number of columns that survives the conversion to [int].  In
    non-safe mode the last two are left to the caller; the column
    bound is what the [int] loop counters of the class presuppose. *)
Definition valid (Safe : bool) (p : polynomial) : Prop :=
  rectangular (coefficients_ p) /\
  dim_ p = rows (coefficients_ p) /\
  degree_ p = to_size_t (cols (coefficients_ p) - 1) /\
  cols (coefficients_ p) <= INT_MAX /\
  (Safe = true -> (T_min_ p <= T_max_ p)%Qc).

Definition non_empty (p : polynomial) : Prop := size (coefficients_ p) <> 0.

(** [t] is accepted by the range check of [operator()] and [derivate] *)
Definition accepted (Safe : bool) (p : polynomial) (t : Qc) : Prop :=
  out_of_range p t && Safe = false.

(** *** Closed forms *)

Definition all_sized (n : nat) (cs : list vec) : Prop :=
  Forall (fun c => length c = n) cs.


(** The direct monomial sum of the specification: the sum over the
    coefficient columns of [(t - t_min)^i * column i]. *)
Fixpoint power_sum (n : nat) (dt : Qc) (i : nat) (cs : list vec) : vec :=
  match cs with
  | [] => vzero n
  | c :: cs' => vplus (vscale (dt ^ i)%Qc c) (power_sum n dt (S i) cs')
  end.

Definition monomial_sum (p : polynomial) (t : Qc) : vec :=
  power_sum (rows (coefficients_ p)) (t - T_min_ p)%Qc 0 (columns (coefficients_ p)).

(** The sum accumulated by [derivate] over the columns [cs], the first
    of which has index [i] and weight [cdt]. *)
Fixpoint term_sum (n : nat) (dt : Qc) (order : nat) (i : Z) (cdt : Qc)
    (cs : list vec) : vec :=
  match cs with
  | [] => vzero n
  | c :: cs' =>
      vplus (vscale (fact (to_size_t i) order) (vscale cdt c))
            (term_sum n dt order (i + 1) (cdt * dt)%Qc cs')
  end.

Definition derivative_sum (n : nat) (dt : Qc) (order : nat) (cs : list vec) : vec :=
  term_sum n dt order (Z.of_nat order) 1%Qc (skipn order cs).

(** Horner's nesting of the columns [cs] around the value [h] *)
Definition horner_nest (dt : Qc) (cs : list vec) (h : vec) : vec :=
  fold_right (fun c acc => vplus (vscale dt acc) c) h cs.

(** *** Vocabulary of the statements *)

(** some boundary value has not the size of [init] *)
Definition differs_from (init : vec) (others : list vec) : Prop :=
  Exists (fun pt => length pt <> length init) others.

(** [t] lies strictly outside [[T_min_, T_max_]] *)
Definition strictly_outside (p : polynomial) (t : Qc) : Prop :=
  (t < T_min_ p)%Qc \/ (T_max_ p < t)%Qc.

(** the curve every derivative beyond the degree is: one zero column *)
Definition zero_curve (p : polynomial) : polynomial :=
  mkPolynomial (rows (coefficients_ p)) (mzero (rows (coefficients_ p)) 1) 0
    (T_min_ p) (T_max_ p).

(** *** Sample curves *)

(** [1 + 2 t + 3 t^2] on [[0, 2]] *)
Definition sample : polynomial :=
  mkPolynomial 1 (mkMatrix 1 [[1%Qc]; [of_Z 2]; [of_Z 3]]) 2 0%Qc (of_Z 2).

(** the constant [1] on [[0, 1]] *)
Definition constant_one : polynomial :=
  mkPolynomial 1 (mkMatrix 1 [[1%Qc]]) 0 0%Qc 1%Qc.

(** the first order that does not fit an [int] *)
Definition huge_order : nat := Z.to_nat (2 ^ 31).


(** *** The other members *)

(** [isApprox(const polynomial_t& other, prec, order)]; [&&] evaluates
    its right operand only when the left one holds *)
Definition isApprox (p other : polynomial) (prec : Qc) : outcome bool :=
  if Qceqb (T_min_ p) (T_min_ other)
     && Qceqb (T_max_ p) (T_max_ other)
     && Nat.eqb (dim_ p) (dim_ other)
     && (degree_ p =? degree_ other)
  then misApprox (coefficients_ p) (coefficients_ other) prec
  else Returns false.

(** [n * (n - 1) * ... * 1] *)
Fixpoint factorial (n : nat) : Z :=
  match n with
  | O => 1
  | S n' => Z.of_nat n * factorial n'
  end.

(** The point [derivate] builds: starting from [cur], the term of each
    column of [cs] is added in turn, the first column having the index
    [i] and the weight [cdt], every next weight being the previous one
    times [dt]. *)
Fixpoint accumulate (dt : Qc) (order : nat) (i : Z) (cdt : Qc) (cur : vec)
    (cs : list vec) : vec :=
  match cs with
  | [] => cur
  | c :: cs' =>
      accumulate dt order (i + 1) (cdt * dt)%Qc
        (vplus cur (vscale (fact (to_size_t i) order) (vscale cdt c))) cs'
  end.

End Polynomial.

(** ** linear_variable.h *)

Module LinearVariable.

Record linear_variable : Type := mkLinearVariable {
  B_ : matrix;
  c_ : vec;
  zero : bool
}.

Definition B (w : linear_variable) : matrix := B_ w.
Definition c (w : linear_variable) : vec := c_ w.
Definition isZero (w : linear_variable) : bool := zero w.

(** the three constructors: variable, constant, mixed *)
Definition linear_variable_default : linear_variable :=
  mkLinearVariable (identity 0 0) (vzero 0) true.
Definition linear_variable_constant (c0 : vec) : linear_variable :=
  mkLinearVariable (mzero (length c0) (length c0)) c0 false.
Definition linear_variable_mixed (B0 : matrix) (c0 : vec) : linear_variable :=
  mkLinearVariable B0 c0 false.

(** [operator()(val)] *)
Definition eval (Safe : bool) (w : linear_variable) (val : vec) : outcome vec :=
  if isZero w then Returns (c w)
  else if Safe && negb (Nat.eqb (length (columns (B w))) (length val)) then
    Throws (length_error
      "Cannot evaluate linear variable, variable value does not have the correct dimension")
  else
    Bx <- mat_vec (B w) val ;; vadd Bx (c w).

(** [operator+=] *)
Definition plus_assign (this w1 : linear_variable) : outcome linear_variable :=
  if isZero w1 then Returns this
  else
    this1 <- (if isZero this
              then Returns (mkLinearVariable (B_ w1) (c_ this) (isZero w1))
              else b <- madd (B_ this) (B_ w1) ;;
                   Returns (mkLinearVariable b (c_ this) (zero this))) ;;
    c1 <- vadd (c_ this1) (c_ w1) ;;
    Returns (mkLinearVariable (B_ this1) c1 (zero this1)).

(** [operator-=] *)
Definition minus_assign (this w1 : linear_variable) : outcome linear_variable :=
  if isZero w1 then Returns this
  else
    this1 <- (if isZero this
              then Returns (mkLinearVariable (mneg (B_ w1)) (c_ this) (isZero w1))
              else b <- msub (B_ this) (B_ w1) ;;
                   Returns (mkLinearVariable b (c_ this) (zero this))) ;;
    c1 <- vsub (c_ this1) (c_ w1) ;;
    Returns (mkLinearVariable (B_ this1) c1 (zero this1)).


(** [Zero(dim)] *)
Definition Zero (dim : nat) : linear_variable :=
  linear_variable_mixed (identity dim dim) (vzero dim).

Definition size (w : linear_variable) : nat :=
  if zero w then 0%nat else Nat.max (length (columns (B_ w))) (length (c_ w)).

Definition norm (w : linear_variable) : R :=
  if isZero w then 0%R else (mnorm (B_ w) + vnorm (c_ w))%R.

(** the free operators *)
Definition plus (w1 w2 : linear_variable) : outcome linear_variable :=
  plus_assign (linear_variable_mixed (B w1) (c w1)) w2.
Definition minus (w1 w2 : linear_variable) : outcome linear_variable :=
  minus_assign (linear_variable_mixed (B w1) (c w1)) w2.

(** [isApprox(other, prec)]: [(this - other).norm() < prec] *)
Definition isApprox (this other : linear_variable) (prec : R) : outcome Prop :=
  d <- minus this other ;; Returns (norm d < prec)%R.

(** *** Vocabulary of the statements *)


(** the comparison returned and holds *)
Definition approx_holds (o : outcome Prop) : Prop :=
  match o with
  | Returns P => P
  | _ => False
  end.

(** the operand of the failing additions: the constant point [(1)] *)
Definition one_point : linear_variable := linear_variable_constant [1%Qc].

(** [B_] is rectangular and [c_] has as many entries as [B_] has rows *)
Definition well_formed (w : linear_variable) : Prop :=
  rectangular (B_ w) /\ length (c_ w) = rows (B_ w).

End LinearVariable.

(** ** The binary64 embedding of polynomial.h

    The same members as in [Polynomial], with [double] as what it is:
    every sum, difference, product and quotient is rounded to
    binary64, a quotient by zero is an infinity or a NaN, and a
    comparison with a NaN is false. *)

Module Binary64.

Import PrimFloat.

(** [(num_t) z] for a [size_t] value [z]: the nearest binary64 *)
Definition of_size_t (z : Z) : float :=
  FloatOps.SF2Prim (SpecFloat.binary_normalize 53 1024 z 0 false).

(** [Eigen::Matrix<double, Dynamic, 1>] and [Eigen::MatrixXd] *)
Definition vec : Type := list float.
Record matrix : Type := mkMatrix { rows : nat; columns : list vec }.

Definition cols (m : matrix) : Z := Z.of_nat (length (columns m)).
Definition size (m : matrix) : Z := (Z.of_nat (rows m) * cols m)%Z.

Definition vzero (n : nat) : vec := repeat 0%float n.
Definition mzero (r c : nat) : matrix := mkMatrix r (repeat (vzero r) c).

Fixpoint zip_with (f : float -> float -> float) (a b : vec) : vec :=
  match a, b with
  | x :: a', y :: b' => f x y :: zip_with f a' b'
  | _, _ => []
  end.

Definition vplus (a b : vec) : vec := zip_with PrimFloat.add a b.
Definition vminus (a b : vec) : vec := zip_with PrimFloat.sub a b.
(** [k * a], [a * k] and [a / k] *)
Definition vscale (k : float) (a : vec) : vec := map (fun x => PrimFloat.mul k x) a.
Definition vtimes (a : vec) (k : float) : vec := map (fun x => PrimFloat.mul x k) a.
Definition vdiv (a : vec) (k : float) : vec := map (fun x => PrimFloat.div x k) a.

Definition vadd (a b : vec) : outcome vec :=
  if Nat.eqb (length a) (length b) then Returns (vplus a b) else Undefined.
Definition vsub (a b : vec) : outcome vec :=
  if Nat.eqb (length a) (length b) then Returns (vminus a b) else Undefined.

Definition col (m : matrix) (i : Z) : outcome vec :=
  if ((0 <=? i) && (i <? cols m))%Z
  then match nth_error (columns m) (Z.to_nat i) with
       | Some c => Returns c
       | None => Undefined
       end
  else Undefined.

Record polynomial : Type := mkPolynomial {
  dim_ : nat;
  coefficients_ : matrix;
  degree_ : Z;
  T_min_ : float;
  T_max_ : float
}.

Definition safe_check (Safe : bool) (p : polynomial) : outcome unit :=
  if Safe then
    if PrimFloat.ltb (T_max_ p) (T_min_ p) then
      Throws (invalid_argument "Tmin should be inferior to Tmax")
    else if negb (cols (coefficients_ p) =? to_int (to_size_t (degree_ p + 1)))%Z then
      Throws (runtime_error "Spline order and coefficients do not match")
    else Returns tt
  else Returns tt.

Fixpoint init_cols (dim : nat) (points : list vec) : outcome (list vec) :=
  match points with
  | [] => Returns []
  | pt :: rest =>
      if Nat.eqb (length pt) dim
      then cs <- init_cols dim rest ;; Returns (pt :: cs)
      else Undefined
  end.

Definition init_coeffs (dim : nat) (points : list vec) : outcome matrix :=
  cs <- init_cols dim points ;; Returns (mkMatrix dim cs).

(** [polynomial(const coeff_t&, min, max)] *)
Definition polynomial_of_coeff (Safe : bool) (coefficients : matrix)
    (min max : float) : outcome polynomial :=
  let p := mkPolynomial (rows coefficients) coefficients
             (to_size_t (cols coefficients - 1)) min max in
  safe_check Safe p ;;; Returns p.

(** [polynomial(init, end, min, max)], boundary condition C0 *)
Definition polynomial_C0 (Safe : bool) (init end_ : vec) (min max : float)
    : outcome polynomial :=
  if negb (Nat.eqb (length init) (length end_)) then
    Throws (invalid_argument "init and end points must have the same dimensions.")
  else
    d <- vsub end_ init ;;
    let coeffs := [init; vdiv d (PrimFloat.sub max min)] in
    c <- init_coeffs (length init) coeffs ;;
    let p := mkPolynomial (length init) c 1 min max in
    safe_check Safe p ;;; Returns p.

Definition check_if_not_empty (p : polynomial) : outcome unit :=
  if (size (coefficients_ p) =? 0)%Z then
    Throws (runtime_error
      "Error in polynomial : there is no coefficients set / did you use empty constructor ?")
  else Returns tt.

Definition out_of_range (p : polynomial) (t : float) : bool :=
  PrimFloat.ltb t (T_min_ p) || PrimFloat.ltb (T_max_ p) t.

(** the loop of [operator()]: [h = dt * h + coefficients_.col(i)] *)
Fixpoint horner_loop (c : matrix) (dt : float) (k : nat) (h : vec) : outcome vec :=
  match k with
  | O => Returns h
  | S i =>
      ci <- col c (Z.of_nat i) ;;
      h' <- vadd (vscale dt h) ci ;;
      horner_loop c dt i h'
  end.

(** [operator()(t)] *)
Definition eval (Safe : bool) (p : polynomial) (t : float) : outcome vec :=
  check_if_not_empty p ;;;
  if out_of_range p t && Safe then
    Throws (invalid_argument
      "error in polynomial : time t to evaluate should be in range [Tmin, Tmax] of the curve")
  else
    let dt := PrimFloat.sub t (T_min_ p) in
    h <- col (coefficients_ p) (degree_ p) ;;
    horner_loop (coefficients_ p) dt
      (Z.to_nat (to_int (to_size_t (degree_ p - 1)) + 1)) h.

(** [fact(n, order)]: [res *= (num_t)(n - i)] *)
Fixpoint fact_from (n : Z) (i : Z) (count : nat) (res : float) : float :=
  match count with
  | O => res
  | S count' =>
      fact_from n (i + 1) count' (PrimFloat.mul res (of_size_t (to_size_t (n - i))))
  end.

Definition fact (n : Z) (order : nat) : float := fact_from n 0 order 1%float.

(** the loop of [derivate]:
    [currentPoint_ += cdt * coefficients_.col(i) * fact(i, order)],
    then [cdt *= dt] *)
Fixpoint derivate_loop (c : matrix) (dt : float) (order : nat) (count : nat)
    (i : Z) (cdt : float) (currentPoint_ : vec) : outcome vec :=
  match count with
  | O => Returns currentPoint_
  | S count' =>
      ci <- col c i ;;
      cur <- vadd currentPoint_
               (vtimes (vscale cdt ci) (fact (to_size_t i) order)) ;;
      derivate_loop c dt order count' (i + 1) (PrimFloat.mul cdt dt) cur
  end.

(** [derivate(t, order)] *)
Definition derivate (Safe : bool) (p : polynomial) (t : float) (order : nat)
    : outcome vec :=
  check_if_not_empty p ;;;
  if out_of_range p t && Safe then
    Throws (invalid_argument
      "error in polynomial : time t to evaluate derivative should be in range [Tmin, Tmax] of the curve")
  else
    let dt := PrimFloat.sub t (T_min_ p) in
    let first := to_int (Z.of_nat order) in
    let last := to_int (to_size_t (degree_ p + 1)) in
    derivate_loop (coefficients_ p) dt order (Z.to_nat (last - first))
      first 1%float (vzero (dim_ p)).

(** [deriv_coeff]: [coeff.col(i + 1) * (num_t)(i + 1)] *)
Fixpoint scale_from (i : Z) (cs : list vec) : list vec :=
  match cs with
  | [] => []
  | c :: cs' => vtimes c (of_size_t (i + 1)) :: scale_from (i + 1) cs'
  end.

Definition deriv_coeff (coeff : matrix) : outcome matrix :=
  match columns coeff with
  | [] => Undefined
  | [_] => Returns (mzero (rows coeff) 1)
  | _ :: higher => Returns (mkMatrix (rows coeff) (scale_from 0 higher))
  end.

(** [compute_derivate(order)] *)
Fixpoint compute_derivate (Safe : bool) (order : nat) (p : polynomial)
    : outcome polynomial :=
  check_if_not_empty p ;;;
  match order with
  | O => Returns p
  | S order' =>
      coeff_derivated <- deriv_coeff (coefficients_ p) ;;
      deriv <- polynomial_of_coeff Safe coeff_derivated (T_min_ p) (T_max_ p) ;;
      compute_derivate Safe order' deriv
  end.

(** *** Well-formed curves and closed forms *)

Definition rectangular (m : matrix) : Prop :=
  Forall (fun c => length c = rows m) (columns m).

(** what every constructor establishes, and the column bound the
    [int] counters presuppose *)
Definition well_formed (p : polynomial) : Prop :=
  rectangular (coefficients_ p) /\
  dim_ p = rows (coefficients_ p) /\
  degree_ p = to_size_t (cols (coefficients_ p) - 1) /\
  (cols (coefficients_ p) <= INT_MAX)%Z.

Definition non_empty (p : polynomial) : Prop := size (coefficients_ p) <> 0%Z.

(** [t] is accepted by the range check of [operator()] and [derivate] *)
Definition accepted (Safe : bool) (p : polynomial) (t : float) : Prop :=
  out_of_range p t && Safe = false.

(** Horner's nesting of the columns [cs] around [h]:
    [c0 + dt * (c1 + dt * (... + dt * h))], every operation rounded *)
Definition horner_nest (dt : float) (cs : list vec) (h : vec) : vec :=
  fold_right (fun c acc => vplus (vscale dt acc) c) h cs.

(** The point [derivate] builds: starting from [cur], the term
    [cdt * c * fact(i, order)] of each column [c] of [cs] is added in
    turn, the first column having the index [i] and the weight [cdt],
    every next weight being the previous one times [dt]. *)
Fixpoint accumulate (dt : float) (order : nat) (i : Z) (cdt : float) (cur : vec)
    (cs : list vec) : vec :=
  match cs with
  | [] => cur
  | c :: cs' =>
      accumulate dt order (i + 1) (PrimFloat.mul cdt dt)
        (vplus cur (vtimes (vscale cdt c) (fact (to_size_t i) order))) cs'
  end.

(** the curve the C0 constructor builds *)
Definition C0_curve (init end_ : vec) (min max : float) : polynomial :=
  mkPolynomial (length init)
    (mkMatrix (length init) [init; vdiv (vminus end_ init) (PrimFloat.sub max min)])
    1 min max.

(** *** Sample curves *)

(** [1 + 2 t + 3 t^2] on [[0, 2]] *)
Definition sample : polynomial :=
  mkPolynomial 1 (mkMatrix 1 [[1]; [2]; [3]]%float) 2 0%float 2%float.


(** the binary64 nearest to 1.3, and the two neighbours
    8.67 and 8.670000000000002 *)
Definition t_1_3 : float := 0x1.4cccccccccccdp+0%float.
Definition v_8_67 : float := 0x1.1570a3d70a3d7p+3%float.
Definition v_8_67_up : float := 0x1.1570a3d70a3d8p+3%float.


End Binary64.

(** ** Vectors of one size form a vector space *)

Module VectorFacts.

Lemma zip_with_length (f : Qc -> Qc -> Qc) (n : nat) :
  forall a b, length a = n -> length b = n -> length (zip_with f a b) = n.
Proof.
  induction n as [|n IH]; intros [|x a] [|y b] Ha Hb; simpl in *; try discriminate; auto.
Qed.

Lemma vplus_length n a b : length a = n -> length b = n -> length (vplus a b) = n.
Proof. apply zip_with_length. Qed.

Lemma vminus_length n a b : length a = n -> length b = n -> length (vminus a b) = n.
Proof. apply zip_with_length. Qed.

Lemma vscale_length k a : length (vscale k a) = length a.
Proof. apply length_map. Qed.

Lemma vdiv_length a k : length (vdiv a k) = length a.
Proof. apply length_map. Qed.

Lemma vzero_length n : length (vzero n) = n.
Proof. apply repeat_length. Qed.

Lemma vplus_assoc : forall a b c, vplus a (vplus b c) = vplus (vplus a b) c.
Proof.
  induction a as [|x a IH]; intros [|y b] [|z c]; simpl; try reflexivity.
  unfold vplus in *; simpl. rewrite IH. f_equal. ring.
Qed.

Lemma vplus_comm : forall a b, vplus a b = vplus b a.
Proof.
  induction a as [|x a IH]; intros [|y b]; simpl; try reflexivity.
  unfold vplus in *; simpl. rewrite IH. f_equal. ring.
Qed.

Lemma vplus_vzero_r : forall n a, length a = n -> vplus a (vzero n) = a.
Proof.
  induction n as [|n IH]; intros [|x a] Ha; simpl in *; try discriminate; auto.
  unfold vplus in *; simpl. rewrite IH by lia. f_equal. ring.
Qed.

Lemma vplus_vzero_l n a : length a = n -> vplus (vzero n) a = a.
Proof. intros; rewrite vplus_comm; now apply vplus_vzero_r. Qed.

Lemma vscale_vplus k : forall a b, vscale k (vplus a b) = vplus (vscale k a) (vscale k b).
Proof.
  induction a as [|x a IH]; intros [|y b]; simpl; try reflexivity.
  unfold vplus, vscale in *; simpl. rewrite IH. f_equal. ring.
Qed.

Lemma vscale_vscale k l a : vscale k (vscale l a) = vscale (k * l)%Qc a.
Proof.
  unfold vscale. rewrite map_map. apply map_ext. intros; ring.
Qed.

Lemma vscale_vzero k n : vscale k (vzero n) = vzero n.
Proof.
  induction n as [|n IH]; simpl; [reflexivity|].
  unfold vscale, vzero in *; simpl. rewrite IH. f_equal. ring.
Qed.

Lemma vscale_one a : vscale 1%Qc a = a.
Proof.
  unfold vscale. rewrite <- (map_id a) at 2. apply map_ext. intros; ring.
Qed.

Lemma vscale_zero : forall a, vscale 0%Qc a = vzero (length a).
Proof.
  induction a as [|x a IH]; simpl; [reflexivity|].
  unfold vscale, vzero in *; simpl. rewrite IH. f_equal. ring.
Qed.

Lemma vadd_returns a b : length a = length b -> vadd a b = Returns (vplus a b).
Proof. intros H; unfold vadd. rewrite H, Nat.eqb_refl. reflexivity. Qed.

Lemma vsub_returns a b : length a = length b -> vsub a b = Returns (vminus a b).
Proof. intros H; unfold vsub. rewrite H, Nat.eqb_refl. reflexivity. Qed.

Lemma col_returns m i c :
  nth_error (columns m) i = Some c -> col m (Z.of_nat i) = Returns c.
Proof.
  intros H. unfold col, cols.
  assert (Hlt : (i < length (columns m))%nat)
    by (apply nth_error_Some; congruence).
  replace ((0 <=? Z.of_nat i)%Z && (Z.of_nat i <? Z.of_nat (length (columns m)))%Z)
    with true.
  - rewrite Nat2Z.id, H. reflexivity.
  - symmetry. apply andb_true_intro. split.
    + apply Z.leb_le. lia.
    + apply Z.ltb_lt. lia.
Qed.

Lemma col_negative m i : (i < 0)%Z -> col m i = Undefined.
Proof.
  intros H. unfold col.
  replace (0 <=? i)%Z with false by (symmetry; apply Z.leb_gt; lia).
  reflexivity.
Qed.

Lemma Qcltb_lt x y : Qcltb x y = true <-> (x < y)%Qc.
Proof.
  unfold Qcltb. rewrite Qclt_alt. destruct (x ?= y)%Qc; split; congruence.
Qed.

Lemma Qcltb_irrefl x : Qcltb x x = false.
Proof.
  destruct (Qcltb x x) eqn:H; [|reflexivity].
  apply Qcltb_lt in H. exfalso. apply (Qcle_not_lt _ _ (Qcle_refl x) H).
Qed.

Lemma Qcltb_ge x y : (x <= y)%Qc -> Qcltb y x = false.
Proof.
  intros H. destruct (Qcltb y x) eqn:E; [|reflexivity].
  apply Qcltb_lt in E. exfalso. apply (Qcle_not_lt _ _ H E).
Qed.

End VectorFacts.

(** ** Facts about polynomial curves *)

Module PolynomialFacts.

Import Polynomial VectorFacts.
Local Open Scope Z_scope.

(** *** Machine integers in range *)

Lemma to_size_t_small z : 0 <= z < 2 ^ 64 -> to_size_t z = z.
Proof. intros H. unfold to_size_t. apply Z.mod_small. exact H. Qed.

Lemma to_int_small z : - 2 ^ 31 <= z < 2 ^ 31 -> to_int z = z.
Proof.
  intros H. unfold to_int.
  change (2 ^ 31) with 2147483648 in *. change (2 ^ 32) with 4294967296.
  rewrite Z.mod_small; lia.
Qed.

Lemma INT_MAX_value : INT_MAX = 2147483647.
Proof. reflexivity. Qed.

Ltac int_range :=
  rewrite ?INT_MAX_value in *;
  change (2 ^ 31) with 2147483648 in *;
  change (2 ^ 64) with 18446744073709551616 in *;
  lia.

(** *** Construction *)

Lemma init_cols_returns dim : forall points,
  Forall (fun pt => length pt = dim) points -> init_cols dim points = Returns points.
Proof.
  induction points as [|pt rest IH]; intros H; simpl; [reflexivity|].
  inversion H as [|? ? Hpt Hrest]; subst.
  rewrite Nat.eqb_refl, (IH Hrest). reflexivity.
Qed.

Lemma init_cols_never_throws dim : forall points e,
  init_cols dim points <> Throws e.
Proof.
  induction points as [|pt rest IH]; intros e; simpl; [discriminate|].
  destruct (Nat.eqb (length pt) dim); [|discriminate].
  destruct (init_cols dim rest) eqn:E; simpl; try discriminate.
  exfalso. exact (IH _ eq_refl).
Qed.

(** C7: a default-constructed curve has a 0 x 0 coefficient matrix;
    [operator()] and [derivate] throw the runtime error of
    [check_if_not_empty] whatever [t], the order, the safe mode and the
    uninitialised [degree_] are, so before the range check and before
    any arithmetic. *)
Theorem default_constructed_cannot_be_evaluated
    (Safe : bool) (indeterminate : Z) (t : Qc) (order : nat) :
  eval Safe (polynomial_default indeterminate) t =
    Throws (runtime_error
      "Error in polynomial : there is no coefficients set / did you use empty constructor ?") /\
  derivate Safe (polynomial_default indeterminate) t order =
    Throws (runtime_error
      "Error in polynomial : there is no coefficients set / did you use empty constructor ?").
Proof. split; reflexivity. Qed.

Lemma polynomial_C0_returns Safe init end_ tmin tmax :
  length init = length end_ ->
  (Safe = true -> (tmin <= tmax)%Qc) ->
  polynomial_C0 Safe init end_ tmin tmax =
    Returns (mkPolynomial (length init)
               (mkMatrix (length init)
                  [init; vdiv (vminus end_ init) (tmax - tmin)%Qc])
               1 tmin tmax).
Proof.
  intros Hlen Ht.
  unfold polynomial_C0. rewrite Hlen, Nat.eqb_refl. simpl negb. cbv iota.
  rewrite vsub_returns by (symmetry; exact Hlen). simpl bind.
  unfold init_coeffs. rewrite init_cols_returns.
  - simpl bind. unfold safe_check. simpl T_max_. simpl T_min_.
    destruct Safe; [|reflexivity].
    rewrite (Qcltb_ge (Ht eq_refl)). reflexivity.
  - apply Forall_cons; [exact Hlen|].
    apply Forall_cons; [|apply Forall_nil].
    rewrite vdiv_length. apply vminus_length; congruence.
Qed.

Lemma init_cols_mismatch dim : forall points,
  Exists (fun pt => length pt <> dim) points -> init_cols dim points = Undefined.
Proof.
  induction points as [|pt rest IH]; intros H; [inversion H|].
  cbn [init_cols].
  destruct (Nat.eqb_spec (length pt) dim) as [E|E]; [|reflexivity].
  apply Exists_cons in H. destruct H as [H|H]; [contradiction|].
  rewrite (IH H). reflexivity.
Qed.

(** C6: a boundary value whose size is not that of [init] makes the
    constructors C0, C1 and C2 throw [std::invalid_argument].  The
    constructors from a collection of points have no such check: in
    either mode a point whose size is not that of the first one
    violates the size precondition of the column assignment in
    [init_coeffs], an empty collection has no first point to take the
    size from, and in non-safe mode these constructors never throw. *)
Theorem boundary_constructors_validate
    (inverse : list (list Qc) -> list (list Qc)) (Safe : bool)
    (init d_init dd_init end_ d_end dd_end : vec)
    (first : vec) (rest points : list vec) (min max : Qc) :
  (differs_from init [end_] ->
     throws_invalid_argument (polynomial_C0 Safe init end_ min max)) /\
  (differs_from init [end_; d_init; d_end] ->
     throws_invalid_argument
       (polynomial_C1 inverse Safe init d_init end_ d_end min max)) /\
  (differs_from init [end_; d_init; d_end; dd_init; dd_end] ->
     throws_invalid_argument
       (polynomial_C2 inverse Safe init d_init dd_init end_ d_end dd_end min max)) /\
  (differs_from first rest ->
     polynomial_of_points Safe (first :: rest) min max = Undefined) /\
  polynomial_of_points Safe [] min max = Undefined /\
  never_throws (polynomial_of_points false points min max).
Proof.
  unfold differs_from.
  split; [|split; [|split; [|split; [|split]]]].
  - intros H. unfold polynomial_C0.
    destruct (Nat.eqb (length init) (length end_)) eqn:E; simpl; [|exact I].
    apply Nat.eqb_eq in E. exfalso.
    repeat (apply Exists_cons in H; destruct H as [H|H]; [congruence|]).
    inversion H.
  - intros H. unfold polynomial_C1.
    destruct (Nat.eqb (length init) (length end_)) eqn:E1; simpl; [|exact I].
    destruct (Nat.eqb (length init) (length d_init)) eqn:E2; simpl; [|exact I].
    destruct (Nat.eqb (length init) (length d_end)) eqn:E3; simpl; [|exact I].
    apply Nat.eqb_eq in E1, E2, E3. exfalso.
    repeat (apply Exists_cons in H; destruct H as [H|H]; [congruence|]).
    inversion H.
  - intros H. unfold polynomial_C2.
    destruct (Nat.eqb (length init) (length end_)) eqn:E1; simpl; [|exact I].
    destruct (Nat.eqb (length init) (length d_init)) eqn:E2; simpl; [|exact I].
    destruct (Nat.eqb (length init) (length d_end)) eqn:E3; simpl; [|exact I].
    destruct (Nat.eqb (length init) (length dd_init)) eqn:E4; simpl; [|exact I].
    destruct (Nat.eqb (length init) (length dd_end)) eqn:E5; simpl; [|exact I].
    apply Nat.eqb_eq in E1, E2, E3, E4, E5. exfalso.
    repeat (apply Exists_cons in H; destruct H as [H|H]; [congruence|]).
    inversion H.
  - intros H. unfold polynomial_of_points, init_coeffs.
    rewrite init_cols_mismatch; [reflexivity|].
    apply Exists_cons_tl. exact H.
  - reflexivity.
  - unfold polynomial_of_points. destruct points as [|pt others]; [exact I|].
    unfold init_coeffs.
    destruct (init_cols (length pt) (pt :: others)) eqn:E; simpl; try exact I.
    exact (init_cols_never_throws _ _ E).
Qed.

Lemma boundary_constructors_validate_witness :
  throws_invalid_argument
    (polynomial_C0 true [0%Qc; 0%Qc] [1%Qc] 0%Qc 1%Qc) /\
  throws_invalid_argument
    (polynomial_C1 (fun m => m) true [0%Qc; 0%Qc] [1%Qc; 1%Qc] [1%Qc] [0%Qc; 0%Qc]
       0%Qc 1%Qc) /\
  throws_invalid_argument
    (polynomial_C2 (fun m => m) true [0%Qc; 0%Qc] [1%Qc; 1%Qc] [0%Qc; 0%Qc] [1%Qc]
       [0%Qc; 0%Qc] [0%Qc; 0%Qc] 0%Qc 1%Qc) /\
  polynomial_of_points true [[1%Qc; 1%Qc]; [1%Qc; 1%Qc]; [1%Qc]] 0%Qc 1%Qc = Undefined.
Proof.
  destruct (@boundary_constructors_validate (fun m => m) true
              [0%Qc; 0%Qc] [1%Qc; 1%Qc] [0%Qc; 0%Qc] [1%Qc] [0%Qc; 0%Qc] [0%Qc; 0%Qc]
              [1%Qc; 1%Qc] [[1%Qc; 1%Qc]; [1%Qc]] [] 0%Qc 1%Qc)
    as (H0 & H1 & H2 & H3 & _ & _).
  assert (Hd : forall others, differs_from [0%Qc; 0%Qc] ([1%Qc] :: others)).
  { intros others. unfold differs_from. apply Exists_cons_hd. simpl. lia. }
  split; [apply H0, Hd|]. split; [apply H1, Hd|]. split; [apply H2, Hd|].
  apply H3. unfold differs_from. apply Exists_cons_tl. apply Exists_cons_hd.
  simpl. lia.
Defined.

(** C6 as stated fails on the constructor from a collection of points:
    handed points of sizes 2 and 1 it throws nothing, in either mode;
    the assignment of the second point to a column of two rows
    violates Eigen's size precondition. *)
Lemma points_constructor_does_not_validate :
  polynomial_of_points true [[1%Qc; 1%Qc]; [1%Qc]] 0%Qc 1%Qc = Undefined /\
  polynomial_of_points false [[1%Qc; 1%Qc]; [1%Qc]] 0%Qc 1%Qc = Undefined /\
  ~ throws_invalid_argument
      (polynomial_of_points true [[1%Qc; 1%Qc]; [1%Qc]] 0%Qc 1%Qc).
Proof. repeat split. intros H. exact H. Qed.


(** *** Lists of columns *)

Lemma firstn_snoc (A : Type) : forall (l : list A) i x,
  nth_error l i = Some x -> firstn (S i) l = firstn i l ++ [x].
Proof.
  induction l as [|y l IH]; intros [|i] x H; simpl in *; try discriminate.
  - congruence.
  - rewrite (IH _ _ H). reflexivity.
Qed.

Lemma skipn_cons (A : Type) : forall (l : list A) n x r,
  skipn n l = x :: r -> nth_error l n = Some x /\ skipn (S n) l = r.
Proof.
  induction l as [|y l IH]; intros [|n] x r H; simpl in *; try discriminate.
  - inversion H; subst. split; [reflexivity|]. destruct r; reflexivity.
  - apply IH in H. exact H.
Qed.

Lemma Forall_skipn (A : Type) (P : A -> Prop) : forall n (l : list A),
  Forall P l -> Forall P (skipn n l).
Proof.
  induction n as [|n IH]; intros l H; [exact H|].
  destruct l as [|x l]; [exact H|].
  inversion H; subst. simpl. apply IH. assumption.
Qed.

(** *** Sizes of the closed forms *)


Lemma term_sum_length n dt order : forall cs i cdt,
  all_sized n cs -> length (term_sum n dt order i cdt cs) = n.
Proof.
  induction cs as [|c cs IH]; intros i cdt H; simpl.
  - apply vzero_length.
  - inversion H; subst. apply vplus_length.
    + rewrite !vscale_length. reflexivity.
    + apply IH. assumption.
Qed.

Lemma horner_nest_length n dt : forall cs h,
  all_sized n cs -> length h = n -> length (horner_nest dt cs h) = n.
Proof.
  induction cs as [|c cs IH]; intros h H Hh; simpl; [exact Hh|].
  apply Forall_cons_iff in H. destruct H as [Hc Hcs].
  apply vplus_length; [|exact Hc].
  rewrite vscale_length. apply IH; assumption.
Qed.

(** *** Horner's scheme is the monomial sum *)

Lemma power_sum_shift n dt : forall cs i,
  power_sum n dt (S i) cs = vscale dt (power_sum n dt i cs).
Proof.
  induction cs as [|c cs IH]; intros i; simpl.
  - symmetry. apply vscale_vzero.
  - rewrite IH, vscale_vplus, vscale_vscale. reflexivity.
Qed.

Lemma horner_nest_power_sum n dt : forall cs top,
  all_sized n cs -> length top = n ->
  horner_nest dt cs top = power_sum n dt 0 (cs ++ [top]).
Proof.
  induction cs as [|c cs IH]; intros top H Htop; simpl.
  - rewrite vscale_one, vplus_vzero_r by exact Htop. reflexivity.
  - apply Forall_cons_iff in H. destruct H as [Hc Hcs].
    rewrite power_sum_shift, <- IH by assumption.
    rewrite vscale_one. apply vplus_comm.
Qed.

Lemma horner_loop_nest c dt : forall k h,
  (k <= length (columns c))%nat ->
  rectangular c -> length h = rows c ->
  horner_loop c dt k h = Returns (horner_nest dt (firstn k (columns c)) h).
Proof.
  induction k as [|i IH]; intros h Hk Hrect Hh; [reflexivity|].
  destruct (nth_error (columns c) i) as [ci|] eqn:Hi;
    [|apply nth_error_None in Hi; lia].
  assert (Hci : length ci = rows c).
  { unfold rectangular in Hrect. rewrite Forall_forall in Hrect.
    apply Hrect. eapply nth_error_In; eassumption. }
  rewrite (firstn_snoc _ _ Hi).
  cbn [horner_loop]. rewrite (col_returns _ _ Hi). cbn [bind].
  rewrite vadd_returns by (rewrite vscale_length; congruence). cbn [bind].
  rewrite IH; try lia; try assumption.
  - unfold horner_nest. rewrite fold_right_app. reflexivity.
  - apply vplus_length; [rewrite vscale_length|]; assumption.
Qed.

(** *** The accumulation of [derivate] *)

Lemma derivate_loop_sum c dt order : forall rest i cdt cur,
  0 <= i ->
  skipn (Z.to_nat i) (columns c) = rest ->
  rectangular c -> length cur = rows c ->
  derivate_loop c dt order (length rest) i cdt cur =
    Returns (vplus cur (term_sum (rows c) dt order i cdt rest)).
Proof.
  induction rest as [|ci rest IH]; intros i cdt cur Hi Hskip Hrect Hcur.
  - simpl. rewrite vplus_vzero_r by exact Hcur. reflexivity.
  - destruct (skipn_cons _ _ Hskip) as [Hnth Hnext].
    assert (Hci : length ci = rows c).
    { unfold rectangular in Hrect. rewrite Forall_forall in Hrect.
      apply Hrect. eapply nth_error_In; eassumption. }
    cbn [derivate_loop length term_sum].
    pose proof (col_returns _ _ Hnth) as Hcol.
    rewrite Z2Nat.id in Hcol by exact Hi. rewrite Hcol. cbn [bind].
    rewrite vadd_returns by (rewrite !vscale_length; congruence). cbn [bind].
    rewrite IH; try assumption; try lia.
    + rewrite vplus_assoc. reflexivity.
    + rewrite Z2Nat.inj_add by lia. rewrite Nat.add_1_r. exact Hnext.
    + apply vplus_length; [|rewrite !vscale_length]; assumption.
Qed.

Lemma fact_zero n : fact n 0 = 1%Qc.
Proof. reflexivity. Qed.

Lemma term_sum_order_zero n dt : forall cs i j,
  term_sum n dt 0 i (dt ^ j)%Qc cs = power_sum n dt j cs.
Proof.
  induction cs as [|c cs IH]; intros i j; simpl; [reflexivity|].
  rewrite fact_zero, vscale_one.
  replace (dt ^ j * dt)%Qc with (dt ^ S j)%Qc by (simpl; ring).
  rewrite IH. reflexivity.
Qed.


(** *** Evaluation of a valid curve *)

Lemma to_int_to_size_t z : - 2 ^ 31 <= z < 2 ^ 31 -> to_int (to_size_t z) = z.
Proof.
  intros H. unfold to_size_t.
  destruct (Z_lt_le_dec z 0) as [Hneg|Hpos].
  - rewrite <- (Z_mod_plus_full z 1 (2 ^ 64)).
    rewrite Z.mod_small by int_range.
    unfold to_int.
    replace (z + 1 * 2 ^ 64 + 2 ^ 31) with (z + 2 ^ 31 + 2 ^ 32 * 2 ^ 32)
      by (change (2 ^ 64) with (2 ^ 32 * 2 ^ 32); ring).
    rewrite Z_mod_plus_full.
    change (2 ^ 31) with 2147483648 in *. change (2 ^ 32) with 4294967296.
    rewrite Z.mod_small; lia.
  - rewrite Z.mod_small by int_range. apply to_int_small. exact H.
Qed.

Lemma non_empty_last p :
  non_empty p ->
  exists front top, columns (coefficients_ p) = front ++ [top].
Proof.
  unfold non_empty, size, cols. intros H.
  destruct (columns (coefficients_ p)) as [|c cs] eqn:E.
  - exfalso. apply H. simpl. lia.
  - destruct (@exists_last _ (c :: cs)) as [front [top Hl]]; [discriminate|].
    exists front, top. exact Hl.
Qed.

Lemma check_if_not_empty_passes p :
  non_empty p -> check_if_not_empty p = Returns tt.
Proof.
  unfold non_empty, check_if_not_empty. intros H.
  destruct (Z.eqb_spec (size (coefficients_ p)) 0); [contradiction|reflexivity].
Qed.

Lemma rectangular_app m front top :
  rectangular m -> columns m = front ++ [top] ->
  all_sized (rows m) front /\ length top = rows m.
Proof.
  unfold rectangular, all_sized. intros H E. rewrite E in H.
  apply Forall_app in H. destruct H as [Hf Ht]. split; [exact Hf|].
  inversion Ht; assumption.
Qed.


(** the interval test of [safe_check] is strict: it fires in safe mode
    on [T_max_ < T_min_] and on nothing else *)
Lemma safe_check_interval Safe p :
  safe_check Safe p = Throws (invalid_argument "Tmin should be inferior to Tmax") <->
  Safe = true /\ (T_max_ p < T_min_ p)%Qc.
Proof.
  unfold safe_check. split.
  - destruct Safe; [|discriminate].
    destruct (Qcltb (T_max_ p) (T_min_ p)) eqn:E.
    + intros _. split; [reflexivity | apply Qcltb_lt; exact E].
    + destruct (negb _); discriminate.
  - intros [-> H]. apply Qcltb_lt in H. rewrite H. reflexivity.
Qed.

Lemma eval_closed Safe p t :
  valid Safe p -> non_empty p -> accepted Safe p t ->
  eval Safe p t = Returns (monomial_sum p t).
Proof.
  intros (Hrect & Hdim & Hdeg & Hmax & _) Hne Hacc.
  destruct (non_empty_last Hne) as [front [top Hcols]].
  destruct (@rectangular_app _ _ _ Hrect Hcols) as [Hfront Htop].
  assert (Hc : cols (coefficients_ p) = Z.of_nat (length front) + 1).
  { unfold cols. rewrite Hcols, length_app. simpl. lia. }
  unfold eval. rewrite (check_if_not_empty_passes Hne). cbn [bind].
  unfold accepted in Hacc. rewrite Hacc.
  rewrite Hdeg, Hc.
  replace (Z.of_nat (length front) + 1 - 1) with (Z.of_nat (length front)) by lia.
  rewrite (to_size_t_small (z := Z.of_nat (length front))) by int_range.
  assert (Hnth : nth_error (columns (coefficients_ p)) (length front) = Some top).
  { rewrite Hcols, nth_error_app2 by lia. rewrite Nat.sub_diag. reflexivity. }
  rewrite (col_returns _ _ Hnth). cbn [bind].
  rewrite to_int_to_size_t by int_range.
  replace (Z.to_nat (Z.of_nat (length front) - 1 + 1)) with (length front) by lia.
  rewrite horner_loop_nest; try assumption.
  - f_equal. unfold monomial_sum.
    rewrite Hcols at 1. rewrite firstn_app, Nat.sub_diag, firstn_all. simpl firstn.
    rewrite app_nil_r. rewrite Hcols.
    apply horner_nest_power_sum; assumption.
  - rewrite Hcols, length_app. lia.
Qed.

Lemma derivate_closed Safe p t order :
  valid Safe p -> non_empty p -> accepted Safe p t ->
  Z.of_nat order <= INT_MAX ->
  derivate Safe p t order =
    Returns (derivative_sum (rows (coefficients_ p)) (t - T_min_ p)%Qc order
               (columns (coefficients_ p))).
Proof.
  intros (Hrect & Hdim & Hdeg & Hmax & _) Hne Hacc Hord.
  destruct (non_empty_last Hne) as [front [top Hcols]].
  assert (Hc : cols (coefficients_ p) = Z.of_nat (length front) + 1).
  { unfold cols. rewrite Hcols, length_app. simpl. lia. }
  unfold derivate. rewrite (check_if_not_empty_passes Hne). cbn [bind].
  unfold accepted in Hacc. rewrite Hacc.
  rewrite Hdeg.
  rewrite (to_size_t_small (z := cols (coefficients_ p) - 1)) by (rewrite Hc; int_range).
  replace (cols (coefficients_ p) - 1 + 1) with (cols (coefficients_ p)) by lia.
  rewrite to_int_to_size_t by (rewrite Hc; int_range).
  rewrite to_int_small by int_range.
  cbv zeta.
  replace (Z.to_nat (cols (coefficients_ p) - Z.of_nat order))
    with (length (skipn order (columns (coefficients_ p))))
    by (rewrite length_skipn; unfold cols; lia).
  rewrite Hdim.
  rewrite derivate_loop_sum; try assumption; try lia.
  - f_equal. unfold derivative_sum. apply vplus_vzero_l.
    apply term_sum_length. apply Forall_skipn. exact Hrect.
  - rewrite Nat2Z.id. reflexivity.
  - apply vzero_length.
Qed.

(** In exact arithmetic Horner's scheme returns the direct monomial
    sum of the columns, and so does [derivate(t, 0)]; the proof uses
    the field laws of [Qc], so this is a fact about the formulas, not
    about the rounded result of a binary64 run. *)
Theorem horner_is_monomial_sum (Safe : bool) (p : polynomial) (t : Qc) :
  valid Safe p -> non_empty p -> accepted Safe p t ->
  eval Safe p t = Returns (monomial_sum p t) /\
  derivate Safe p t 0 = eval Safe p t.
Proof.
  intros Hv Hne Hacc. split; [apply eval_closed; assumption|].
  rewrite eval_closed, derivate_closed by (try assumption; int_range).
  f_equal. unfold derivative_sum, monomial_sum. simpl skipn.
  apply (term_sum_order_zero (rows (coefficients_ p)) (t - T_min_ p)%Qc
           (columns (coefficients_ p)) 0 0%nat).
Qed.


(** *** One pass of [deriv_coeff] *)

Lemma fact_from_linear n : forall count i r,
  fact_from n i count r = (r * fact_from n i count 1)%Qc.
Proof.
  induction count as [|count IH]; intros i r; simpl; [ring|].
  rewrite IH. rewrite (IH _ (1 * _)%Qc). ring.
Qed.

Lemma fact_from_shift n : forall count i r,
  fact_from (n + 1) (i + 1) count r = fact_from n i count r.
Proof.
  induction count as [|count IH]; intros i r; simpl; [reflexivity|].
  replace (n + 1 - (i + 1)) with (n - i) by lia. apply IH.
Qed.

Lemma fact_step n k :
  0 <= n + 1 < 2 ^ 64 ->
  fact (n + 1) (S k) = (of_Z (n + 1) * fact n k)%Qc.
Proof.
  intros H. unfold fact. simpl.
  replace (n + 1 - 0) with (n + 1) by lia.
  rewrite to_size_t_small by exact H.
  change 1 with (0 + 1) at 2. rewrite fact_from_shift, fact_from_linear. ring.
Qed.

Lemma scale_from_skipn : forall k i l,
  skipn k (scale_from i l) = scale_from (i + Z.of_nat k) (skipn k l).
Proof.
  induction k as [|k IH]; intros i l.
  - simpl. rewrite Z.add_0_r. reflexivity.
  - destruct l as [|c l]; [reflexivity|].
    cbn [scale_from skipn]. rewrite IH. f_equal. lia.
Qed.

Lemma scale_from_length : forall l i, length (scale_from i l) = length l.
Proof.
  induction l as [|c l IH]; intros i; simpl; [reflexivity|].
  rewrite IH. reflexivity.
Qed.

Lemma scale_from_sized n : forall l i, all_sized n l -> all_sized n (scale_from i l).
Proof.
  induction l as [|c l IH]; intros i H; simpl; [constructor|].
  apply Forall_cons_iff in H. destruct H as [Hc Hl].
  constructor; [rewrite vscale_length; exact Hc | apply IH; exact Hl].
Qed.

Lemma term_sum_scaled n dt k : forall l i cdt,
  0 <= i -> i + Z.of_nat (length l) < 2 ^ 64 ->
  term_sum n dt (S k) (i + 1) cdt l = term_sum n dt k i cdt (scale_from i l).
Proof.
  induction l as [|c l IH]; intros i cdt Hi Hb; [reflexivity|].
  cbn [length] in Hb.
  cbn [term_sum scale_from].
  rewrite IH by lia. f_equal.
  rewrite (to_size_t_small (z := i + 1)) by lia.
  rewrite (to_size_t_small (z := i)) by lia.
  rewrite fact_step by lia.
  rewrite !vscale_vscale. f_equal. ring.
Qed.

Lemma derivative_sum_higher n dt k c0 higher :
  Z.of_nat (length higher) < 2 ^ 63 ->
  derivative_sum n dt (S k) (c0 :: higher) =
    derivative_sum n dt k (scale_from 0 higher).
Proof.
  intros Hb. unfold derivative_sum. cbn [skipn].
  rewrite scale_from_skipn, Z.add_0_l.
  destruct (skipn k higher) as [|c rest] eqn:E; [reflexivity|].
  assert (Hlen : (length (c :: rest) = length higher - k)%nat)
    by (rewrite <- E; apply length_skipn).
  assert (Hk : (k < length higher)%nat) by (cbn [length] in Hlen; lia).
  rewrite Nat2Z.inj_succ, <- Z.add_1_r.
  apply term_sum_scaled; [lia|].
  change (2 ^ 63) with 9223372036854775808 in Hb.
  change (2 ^ 64) with 18446744073709551616. lia.
Qed.

Lemma derivative_sum_constant n dt k c0 :
  derivative_sum n dt (S k) [c0] = derivative_sum n dt k [vzero n].
Proof.
  unfold derivative_sum. cbn [skipn].
  replace (skipn k (@nil vec)) with (@nil vec) by (destruct k; reflexivity).
  destruct k as [|k].
  - cbn [skipn term_sum]. rewrite !vscale_vzero, vplus_vzero_r by apply vzero_length.
    reflexivity.
  - cbn [skipn].
    replace (skipn k (@nil vec)) with (@nil vec) by (destruct k; reflexivity).
    reflexivity.
Qed.


(** *** The structural derivative *)

Lemma polynomial_of_coeff_returns Safe m tmin tmax :
  (Safe = true -> (tmin <= tmax)%Qc) ->
  1 <= cols m <= INT_MAX ->
  polynomial_of_coeff Safe m tmin tmax =
    Returns (mkPolynomial (rows m) m (cols m - 1) tmin tmax).
Proof.
  intros Ht Hc. unfold polynomial_of_coeff, safe_check.
  cbn [T_max_ T_min_ coefficients_ degree_].
  rewrite (to_size_t_small (z := cols m - 1)) by int_range.
  replace (cols m - 1 + 1) with (cols m) by lia.
  rewrite to_int_to_size_t by int_range.
  rewrite Z.eqb_refl. cbn [negb].
  destruct Safe; [|reflexivity].
  rewrite (Qcltb_ge (Ht eq_refl)). reflexivity.
Qed.

Lemma polynomial_of_coeff_valid Safe m tmin tmax :
  (Safe = true -> (tmin <= tmax)%Qc) ->
  rectangular m -> 1 <= cols m <= INT_MAX ->
  valid Safe (mkPolynomial (rows m) m (cols m - 1) tmin tmax).
Proof.
  intros Ht Hr Hc. unfold valid. cbn [coefficients_ dim_ degree_ T_min_ T_max_].
  repeat split; try assumption; try lia.
  symmetry. apply to_size_t_small. int_range.
Qed.



Lemma non_empty_sizes p :
  non_empty p <->
  (0 < rows (coefficients_ p))%nat /\ 1 <= cols (coefficients_ p).
Proof.
  unfold non_empty, size, cols. split.
  - intros H. split.
    + destruct (rows (coefficients_ p)); [exfalso; apply H; reflexivity | lia].
    + destruct (columns (coefficients_ p)); [exfalso; apply H; simpl; lia | simpl; lia].
  - intros [Hr Hc]. nia.
Qed.

Lemma deriv_coeff_step Safe p :
  valid Safe p -> non_empty p ->
  exists m,
    deriv_coeff (coefficients_ p) = Returns m /\
    rectangular m /\
    rows m = rows (coefficients_ p) /\
    1 <= cols m <= INT_MAX /\
    (cols (coefficients_ p) = 1 -> m = mzero (rows (coefficients_ p)) 1) /\
    (1 < cols (coefficients_ p) -> cols m = cols (coefficients_ p) - 1) /\
    (forall dt k,
       derivative_sum (rows m) dt k (columns m) =
       derivative_sum (rows (coefficients_ p)) dt (S k) (columns (coefficients_ p))).
Proof.
  intros (Hrect & _ & _ & Hmax & _) Hne.
  apply non_empty_sizes in Hne. destruct Hne as [_ Hc].
  unfold deriv_coeff, cols, rectangular in *.
  destruct (columns (coefficients_ p)) as [|c0 [|c1 higher]] eqn:E.
  - simpl in Hc. lia.
  - exists (mzero (rows (coefficients_ p)) 1).
    repeat split; try reflexivity; try (cbn; int_range).
    + constructor; [apply vzero_length | constructor].
    + intros dt k. symmetry. apply derivative_sum_constant.
  - exists (mkMatrix (rows (coefficients_ p)) (scale_from 0 (c1 :: higher))).
    cbn [rows columns].
    repeat split; try reflexivity.
    + apply scale_from_sized. inversion Hrect; assumption.
    + rewrite scale_from_length. cbn [length]. lia.
    + rewrite scale_from_length. cbn [length] in *. lia.
    + intros H. cbn [length] in H. lia.
    + intros _. rewrite scale_from_length. cbn [length]. lia.
    + intros dt k. symmetry. apply derivative_sum_higher.
      cbn [length] in *. rewrite INT_MAX_value in Hmax.
      change (2 ^ 63) with 9223372036854775808. lia.
Qed.

Lemma compute_derivate_closed Safe : forall order p,
  valid Safe p -> non_empty p ->
  exists q,
    compute_derivate Safe order p = Returns q /\
    valid Safe q /\ non_empty q /\
    T_min_ q = T_min_ p /\ T_max_ q = T_max_ p /\
    rows (coefficients_ q) = rows (coefficients_ p) /\
    (forall dt,
       derivative_sum (rows (coefficients_ q)) dt 0 (columns (coefficients_ q)) =
       derivative_sum (rows (coefficients_ p)) dt order (columns (coefficients_ p))).
Proof.
  induction order as [|order IH]; intros p Hv Hne.
  - exists p. cbn [compute_derivate].
    rewrite (check_if_not_empty_passes Hne). cbn [bind].
    split; [reflexivity|]. split; [exact Hv|]. split; [exact Hne|].
    repeat split; reflexivity.
  - destruct (deriv_coeff_step Hv Hne)
      as (m & Hm & Hrect & Hrows & Hcols & _ & _ & Hsum).
    assert (Ht : Safe = true -> (T_min_ p <= T_max_ p)%Qc)
      by (destruct Hv as (_ & _ & _ & _ & Ht); exact Ht).
    pose (d := mkPolynomial (rows m) m (cols m - 1) (T_min_ p) (T_max_ p)).
    assert (Hvd : valid Safe d) by (apply polynomial_of_coeff_valid; assumption).
    assert (Hned : non_empty d).
    { apply non_empty_sizes. cbn [d coefficients_].
      apply non_empty_sizes in Hne. rewrite Hrows. split; [apply Hne | lia]. }
    destruct (IH d Hvd Hned) as (q & Hq & Hvq & Hneq & Hmin & Hmax & Hr & Hs).
    exists q. cbn [compute_derivate].
    rewrite (check_if_not_empty_passes Hne). cbn [bind].
    rewrite Hm. cbn [bind].
    rewrite polynomial_of_coeff_returns by assumption. cbn [bind].
    fold d. rewrite Hq.
    split; [reflexivity|]. split; [exact Hvq|]. split; [exact Hneq|].
    split; [exact Hmin|]. split; [exact Hmax|]. split.
    + rewrite Hr. exact Hrows.
    + intros dt. rewrite Hs. cbn [d coefficients_]. apply Hsum.
Qed.


Lemma accepted_same_interval Safe p q t :
  T_min_ q = T_min_ p -> T_max_ q = T_max_ p ->
  accepted Safe p t -> accepted Safe q t.
Proof.
  unfold accepted, out_of_range. intros -> ->. exact (fun H => H).
Qed.

Lemma monomial_sum_derivative_sum p t :
  monomial_sum p t =
  derivative_sum (rows (coefficients_ p)) (t - T_min_ p)%Qc 0
    (columns (coefficients_ p)).
Proof.
  unfold monomial_sum, derivative_sum. cbn [skipn]. symmetry.
  apply (term_sum_order_zero (rows (coefficients_ p)) (t - T_min_ p)%Qc
           (columns (coefficients_ p)) 0 0%nat).
Qed.

(** In exact arithmetic, and for the orders the [int] counter of
    [derivate] can hold, the curve [compute_derivate(order)] evaluates
    to the point [derivate(t, order)] returns; the proof uses the
    field laws of [Qc]. *)
Theorem derivative_curve_agrees_with_derivate
    (Safe : bool) (p : polynomial) (t : Qc) (order : nat) :
  valid Safe p -> non_empty p -> accepted Safe p t ->
  Z.of_nat order <= INT_MAX ->
  exists v,
    derivate Safe p t order = Returns v /\
    (q <- compute_derivate Safe order p ;; eval Safe q t) = Returns v.
Proof.
  intros Hv Hne Hacc Hord.
  destruct (compute_derivate_closed order Hv Hne)
    as (q & Hq & Hvq & Hneq & Hmin & Hmax & Hr & Hs).
  eexists. split; [apply derivate_closed; assumption|].
  rewrite Hq. cbn [bind].
  rewrite eval_closed; try assumption.
  - rewrite monomial_sum_derivative_sum, Hmin, Hs. reflexivity.
  - exact (@accepted_same_interval Safe p q t Hmin Hmax Hacc).
Qed.

Lemma compute_derivate_beyond Safe : forall order p,
  valid Safe p -> non_empty p ->
  cols (coefficients_ p) <= Z.of_nat order ->
  compute_derivate Safe order p = Returns (zero_curve p).
Proof.
  induction order as [|order IH]; intros p Hv Hne Hk.
  - apply non_empty_sizes in Hne. lia.
  - destruct (deriv_coeff_step Hv Hne)
      as (m & Hm & Hrect & Hrows & Hcols & Hone & Hmore & _).
    assert (Ht : Safe = true -> (T_min_ p <= T_max_ p)%Qc)
      by (destruct Hv as (_ & _ & _ & _ & Ht); exact Ht).
    pose (d := mkPolynomial (rows m) m (cols m - 1) (T_min_ p) (T_max_ p)).
    assert (Hvd : valid Safe d) by (apply polynomial_of_coeff_valid; assumption).
    assert (Hned : non_empty d).
    { apply non_empty_sizes. cbn [d coefficients_].
      apply non_empty_sizes in Hne. rewrite Hrows. split; [apply Hne | lia]. }
    cbn [compute_derivate].
    rewrite (check_if_not_empty_passes Hne). cbn [bind].
    rewrite Hm. cbn [bind].
    rewrite polynomial_of_coeff_returns by assumption. cbn [bind]. fold d.
    assert (Hc1 : 1 <= cols (coefficients_ p))
      by (apply non_empty_sizes in Hne; apply Hne).
    destruct (Z.eq_dec (cols (coefficients_ p)) 1) as [E|E].
    + specialize (Hone E).
      assert (Hd : d = zero_curve p)
        by (unfold d, zero_curve; rewrite Hone; reflexivity).
      destruct order as [|order].
      * cbn [compute_derivate].
        rewrite (check_if_not_empty_passes Hned). cbn [bind].
        rewrite Hd. reflexivity.
      * rewrite IH; try assumption.
        -- rewrite Hd. reflexivity.
        -- cbn [d coefficients_]. rewrite Hone. cbn. lia.
    + rewrite IH; try assumption.
      * unfold zero_curve, d. cbn [coefficients_ T_min_ T_max_].
        rewrite Hrows. reflexivity.
      * cbn [d coefficients_]. rewrite Hmore by lia. lia.
Qed.

Lemma zero_curve_valid Safe p :
  valid Safe p -> non_empty p ->
  valid Safe (zero_curve p) /\ non_empty (zero_curve p).
Proof.
  intros (_ & _ & _ & _ & Ht) Hne. split.
  - unfold valid, zero_curve. cbn [coefficients_ dim_ degree_ T_min_ T_max_].
    repeat split; try reflexivity.
    + constructor; [apply vzero_length | constructor].
    + cbn. int_range.
    + exact Ht.
  - apply non_empty_sizes. apply non_empty_sizes in Hne.
    unfold zero_curve. cbn. split; [apply Hne | lia].
Qed.

(** C8, at the times evaluation accepts: beyond the degree
    [compute_derivate] returns, without error, the degree-0 curve
    whose only column is the zero vector, which evaluates to the zero
    vector; and [compute_derivate(0)] returns the curve itself. *)
Theorem derivative_beyond_degree_is_zero
    (Safe : bool) (p : polynomial) (order : nat) (t : Qc) :
  valid Safe p -> non_empty p ->
  degree_ p < Z.of_nat order ->
  accepted Safe p t ->
  compute_derivate Safe order p = Returns (zero_curve p) /\
  degree_ (zero_curve p) = 0 /\
  columns (coefficients_ (zero_curve p)) = [vzero (rows (coefficients_ p))] /\
  eval Safe (zero_curve p) t = Returns (vzero (rows (coefficients_ p))) /\
  compute_derivate Safe 0 p = Returns p.
Proof.
  intros Hv Hne Hdeg Hacc.
  assert (Hk : cols (coefficients_ p) <= Z.of_nat order).
  { destruct Hv as (_ & _ & Hd & Hmax & _).
    apply non_empty_sizes in Hne. destruct Hne as [_ Hc].
    rewrite Hd, to_size_t_small in Hdeg by int_range. lia. }
  split; [apply compute_derivate_beyond; assumption|].
  split; [reflexivity|]. split; [reflexivity|]. split.
  - destruct (zero_curve_valid Hv Hne) as [Hvz Hnez].
    rewrite eval_closed; try assumption.
    f_equal. unfold monomial_sum, zero_curve. cbn.
    rewrite vscale_vzero. apply vplus_vzero_r. apply vzero_length.
  - cbn [compute_derivate]. rewrite (check_if_not_empty_passes Hne). reflexivity.
Qed.


(** *** The two-point constructor *)

Lemma vplus_vdiv_cancel d : forall init end_,
  d <> 0%Qc -> length init = length end_ ->
  vplus (vscale d (vdiv (vminus end_ init) d)) init = end_.
Proof.
  intros init end_ Hd. revert end_.
  induction init as [|x init IH]; intros [|y end_] Hlen; simpl in *;
    try discriminate; [reflexivity|].
  unfold vplus, vscale, vdiv, vminus in *. simpl.
  rewrite IH by lia. f_equal. field. exact Hd.
Qed.

Lemma Qcminus_pos_nonzero (a b : Qc) : (a < b)%Qc -> (b - a)%Qc <> 0%Qc.
Proof.
  intros Hlt H. apply (Qclt_not_eq _ _ Hlt).
  replace a with (b - (b - a))%Qc by ring. rewrite H. ring.
Qed.

(** In exact arithmetic the curve of the C0 constructor evaluates to
    [end] at [max]; the proof uses the field laws of [Qc]. *)
Theorem C0_constructor_interpolates
    (Safe : bool) (init end_ : vec) (tmin tmax : Qc) :
  length init = length end_ -> init <> [] -> (tmin < tmax)%Qc ->
  exists p,
    polynomial_C0 Safe init end_ tmin tmax = Returns p /\
    degree_ p = 1 /\
    columns (coefficients_ p) = [init; vdiv (vminus end_ init) (tmax - tmin)%Qc] /\
    eval Safe p tmin = Returns init /\
    eval Safe p tmax = Returns end_.
Proof.
  intros Hlen Hne Hlt.
  pose proof (Qclt_le_weak _ _ Hlt) as Hle.
  eexists. split; [apply polynomial_C0_returns; [exact Hlen | intros _; exact Hle]|].
  split; [reflexivity|]. split; [reflexivity|].
  set (p := mkPolynomial _ _ _ _ _).
  assert (Hcol : length (vdiv (vminus end_ init) (tmax - tmin)%Qc) = length init)
    by (rewrite vdiv_length; apply vminus_length; congruence).
  assert (Hv : valid Safe p).
  { unfold valid, p. cbn [coefficients_ dim_ degree_ T_min_ T_max_ rows].
    repeat split; try reflexivity.
    - constructor; [reflexivity|]. constructor; [exact Hcol | constructor].
    - cbn. int_range.
    - intros _. exact Hle. }
  assert (Hnep : non_empty p).
  { apply non_empty_sizes. unfold p. cbn.
    split; [|lia]. destruct init; [contradiction | simpl; lia]. }
  split.
  - rewrite eval_closed; try assumption.
    + f_equal. unfold monomial_sum, p.
      cbn [coefficients_ columns rows T_min_ power_sum Qcpower].
      replace ((tmin - tmin) * 1)%Qc with 0%Qc by ring.
      rewrite vscale_one, vscale_zero, Hcol.
      rewrite vplus_vzero_r by apply vzero_length.
      apply vplus_vzero_r. reflexivity.
    + unfold accepted, out_of_range, p. cbn [T_min_ T_max_].
      rewrite Qcltb_irrefl, (Qcltb_ge Hle). reflexivity.
  - rewrite eval_closed; try assumption.
    + f_equal. unfold monomial_sum, p.
      cbn [coefficients_ columns rows T_min_ power_sum Qcpower].
      replace ((tmax - tmin) * 1)%Qc with (tmax - tmin)%Qc by ring.
      rewrite vscale_one.
      rewrite vplus_vzero_r by (rewrite vscale_length; exact Hcol).
      rewrite vplus_comm.
      apply vplus_vdiv_cancel; [apply Qcminus_pos_nonzero; exact Hlt | exact Hlen].
    + unfold accepted, out_of_range, p. cbn [T_min_ T_max_].
      rewrite Qcltb_irrefl, (Qcltb_ge Hle). reflexivity.
Qed.

(** *** The range check *)

Lemma strictly_outside_out_of_range p t :
  strictly_outside p t -> out_of_range p t = true.
Proof.
  unfold strictly_outside, out_of_range. intros [H|H].
  - apply Qcltb_lt in H. rewrite H. reflexivity.
  - apply Qcltb_lt in H. rewrite H. apply orb_true_r.
Qed.

(** C2, for a non-empty curve: in safe mode [operator()] and [derivate]
    at a [t] strictly outside the interval throw the range error, a
    [std::invalid_argument]; in non-safe mode, on a valid curve and for
    an order the [int] counter can hold, both return a point. *)
Theorem range_check_follows_safe_mode (p : polynomial) (t : Qc) (order : nat) :
  non_empty p -> strictly_outside p t ->
  eval true p t =
    Throws (invalid_argument
      "error in polynomial : time t to evaluate should be in range [Tmin, Tmax] of the curve") /\
  derivate true p t order =
    Throws (invalid_argument
      "error in polynomial : time t to evaluate derivative should be in range [Tmin, Tmax] of the curve") /\
  (valid false p -> Z.of_nat order <= INT_MAX ->
   exists v w, eval false p t = Returns v /\ derivate false p t order = Returns w).
Proof.
  intros Hne Hout. apply strictly_outside_out_of_range in Hout.
  repeat split.
  - unfold eval. rewrite (check_if_not_empty_passes Hne), Hout. reflexivity.
  - unfold derivate. rewrite (check_if_not_empty_passes Hne), Hout. reflexivity.
  - intros Hv Hord.
    assert (Hacc : accepted false p t) by (unfold accepted; apply andb_false_r).
    eexists. eexists. split.
    + apply eval_closed; assumption.
    + apply derivate_closed; assumption.
Qed.


(** *** Sample curves *)

Lemma sample_valid Safe : valid Safe sample.
Proof.
  unfold valid, sample. cbn [coefficients_ dim_ degree_ T_min_ T_max_ rows].
  repeat split.
  - repeat constructor.
  - cbn. int_range.
  - intros _. unfold Qcle. vm_compute. discriminate.
Defined.

Lemma sample_non_empty : non_empty sample.
Proof. unfold non_empty. vm_compute. discriminate. Defined.

Lemma constant_one_valid Safe : valid Safe constant_one.
Proof.
  unfold valid, constant_one. cbn [coefficients_ dim_ degree_ T_min_ T_max_ rows].
  repeat split.
  - repeat constructor.
  - cbn. int_range.
  - intros _. unfold Qcle. vm_compute. discriminate.
Defined.

Lemma constant_one_non_empty : non_empty constant_one.
Proof. unfold non_empty. vm_compute. discriminate. Defined.

Lemma huge_order_value : Z.of_nat huge_order = 2 ^ 31.
Proof. unfold huge_order. apply Z2Nat.id. discriminate. Qed.

(** an order of [2^31] becomes the [int] [-2^31]: the first column
    [derivate] asks for has a negative index *)
Lemma derivate_huge_order Safe :
  derivate Safe constant_one 0%Qc huge_order = Undefined.
Proof.
  unfold derivate.
  rewrite (check_if_not_empty_passes constant_one_non_empty). cbn [bind].
  replace (out_of_range constant_one 0%Qc) with false by reflexivity.
  cbn [andb]. cbv zeta.
  rewrite huge_order_value.
  replace (to_int (2 ^ 31)) with (- 2147483648) by reflexivity.
  replace (to_int (to_size_t (degree_ constant_one + 1))) with 1 by reflexivity.
  replace (1 - - 2147483648) with (Z.succ 2147483648) by reflexivity.
  rewrite Z2Nat.inj_succ by discriminate.
  cbn [derivate_loop].
  rewrite col_negative by reflexivity. reflexivity.
Qed.


Lemma derivative_beyond_degree_is_zero_witness :
  compute_derivate true 3 sample = Returns (zero_curve sample) /\
  degree_ (zero_curve sample) = 0 /\
  columns (coefficients_ (zero_curve sample)) = [vzero 1] /\
  eval true (zero_curve sample) 1%Qc = Returns (vzero 1) /\
  compute_derivate true 0 sample = Returns sample.
Proof.
  apply (@derivative_beyond_degree_is_zero true sample 3%nat 1%Qc).
  - apply sample_valid.
  - apply sample_non_empty.
  - vm_compute. reflexivity.
  - unfold accepted. reflexivity.
Defined.

Lemma range_check_follows_safe_mode_witness :
  eval true sample (of_Z 5) =
    Throws (invalid_argument
      "error in polynomial : time t to evaluate should be in range [Tmin, Tmax] of the curve") /\
  derivate true sample (of_Z 5) 1 =
    Throws (invalid_argument
      "error in polynomial : time t to evaluate derivative should be in range [Tmin, Tmax] of the curve") /\
  exists v w, eval false sample (of_Z 5) = Returns v /\
              derivate false sample (of_Z 5) 1 = Returns w.
Proof.
  destruct (@range_check_follows_safe_mode sample (of_Z 5) 1%nat) as (H1 & H2 & H3).
  - apply sample_non_empty.
  - right. unfold Qclt. vm_compute. reflexivity.
  - split; [exact H1|]. split; [exact H2|].
    apply H3; [apply sample_valid | vm_compute; discriminate].
Defined.

(** C2 as stated fails on the default-constructed curve, which throws
    the runtime error of [check_if_not_empty] at a [t] outside its
    interval [[0, 0]] in safe and in non-safe mode, and on an order of
    [2^31], for which [derivate] in non-safe mode returns nothing. *)
Lemma range_check_comes_second :
  strictly_outside (polynomial_default 0) 1%Qc /\
  eval true (polynomial_default 0) 1%Qc =
    Throws (runtime_error
      "Error in polynomial : there is no coefficients set / did you use empty constructor ?") /\
  eval false (polynomial_default 0) 1%Qc =
    Throws (runtime_error
      "Error in polynomial : there is no coefficients set / did you use empty constructor ?") /\
  derivate false constant_one 0%Qc huge_order = Undefined.
Proof.
  split; [right; unfold Qclt; vm_compute; reflexivity|].
  split; [reflexivity|]. split; [reflexivity|].
  apply derivate_huge_order.
Qed.

(** C8 as stated fails in safe mode at a [t] outside the interval:
    the derivative of the constant [1] on [[0, 1]] is the zero curve,
    and evaluating it at [5] throws the range error. *)
Lemma zero_curve_checks_range :
  degree_ constant_one < Z.of_nat 1 /\
  (q <- compute_derivate true 1 constant_one ;; eval true q (of_Z 5)) =
    Throws (invalid_argument
      "error in polynomial : time t to evaluate should be in range [Tmin, Tmax] of the curve").
Proof. split; reflexivity. Qed.

(** *** What the two evaluations return, operation by operation *)

Lemma derivate_loop_accumulate c dt order : forall rest i cdt cur,
  0 <= i ->
  skipn (Z.to_nat i) (columns c) = rest ->
  rectangular c -> length cur = rows c ->
  derivate_loop c dt order (length rest) i cdt cur =
    Returns (accumulate dt order i cdt cur rest).
Proof.
  induction rest as [|ci rest IH]; intros i cdt cur Hi Hskip Hrect Hcur;
    [reflexivity|].
  destruct (skipn_cons _ _ Hskip) as [Hnth Hnext].
  assert (Hci : length ci = rows c).
  { unfold rectangular in Hrect. rewrite Forall_forall in Hrect.
    apply Hrect. eapply nth_error_In; eassumption. }
  cbn [derivate_loop length accumulate].
  pose proof (col_returns _ _ Hnth) as Hcol.
  rewrite Z2Nat.id in Hcol by exact Hi. rewrite Hcol. cbn [bind].
  rewrite vadd_returns by (rewrite !vscale_length; congruence). cbn [bind].
  apply IH; try assumption; try lia.
  - rewrite Z2Nat.inj_add by lia. rewrite Nat.add_1_r. exact Hnext.
  - apply vplus_length; [|rewrite !vscale_length]; assumption.
Qed.

Lemma derivate_accumulates Safe p t order :
  valid Safe p -> non_empty p -> accepted Safe p t ->
  Z.of_nat order <= INT_MAX ->
  derivate Safe p t order =
    Returns (accumulate (t - T_min_ p)%Qc order (Z.of_nat order) 1%Qc
               (vzero (dim_ p)) (skipn order (columns (coefficients_ p)))).
Proof.
  intros (Hrect & Hdim & Hdeg & Hmax & _) Hne Hacc Hord.
  destruct (non_empty_last Hne) as [front [top Hcols]].
  assert (Hc : cols (coefficients_ p) = Z.of_nat (length front) + 1).
  { unfold cols. rewrite Hcols, length_app. simpl. lia. }
  unfold derivate. rewrite (check_if_not_empty_passes Hne). cbn [bind].
  unfold accepted in Hacc. rewrite Hacc.
  rewrite Hdeg.
  rewrite (to_size_t_small (z := cols (coefficients_ p) - 1)) by (rewrite Hc; int_range).
  replace (cols (coefficients_ p) - 1 + 1) with (cols (coefficients_ p)) by lia.
  rewrite to_int_to_size_t by (rewrite Hc; int_range).
  rewrite to_int_small by int_range.
  cbv zeta.
  replace (Z.to_nat (cols (coefficients_ p) - Z.of_nat order))
    with (length (skipn order (columns (coefficients_ p))))
    by (rewrite length_skipn; unfold cols; lia).
  apply derivate_loop_accumulate; try assumption; try lia.
  - rewrite Nat2Z.id. reflexivity.
  - rewrite vzero_length. exact Hdim.
Qed.






End PolynomialFacts.

(** ** Facts about linear variables *)

Module LinearVariableFacts.

Import LinearVariable.

Lemma Q2R_one : Q2R 1%Q = 1%R.
Proof. unfold Q2R; simpl; lra. Qed.

Lemma Q2R_zero : Q2R 0%Q = 0%R.
Proof. unfold Q2R; simpl; lra. Qed.

Lemma dummy_precision_small : (dummy_precision <= 1)%R.
Proof. unfold dummy_precision; lra. Qed.


(** C1 at the constant point [(1)]: [Zero()] and [Zero(1)] are built by
    the mixed constructor around an identity matrix, so neither is
    flagged zero; [Zero() + x] and the comparison of [x - x] with
    [Zero()] combine a 1x1 with a 0x0 matrix, [Zero(1) + x] has the
    linear part [I] and is not approximately [x], and [Zero(1)] is not
    approximately the default-constructed element. *)
Theorem Zero_is_not_neutral :
  isZero (Zero 0) = false /\
  isZero (Zero 1) = false /\
  plus (Zero 0) one_point = Undefined /\
  (d <- minus one_point one_point ;; isApprox d (Zero 0) dummy_precision) = Undefined /\
  ~ approx_holds (s <- plus (Zero 1) one_point ;; isApprox s one_point dummy_precision) /\
  ~ approx_holds (isApprox (Zero 1) linear_variable_default dummy_precision) /\
  isApprox linear_variable_default (Zero 1) dummy_precision = Undefined.
Proof.
  repeat split; try reflexivity.
  - cbn. unfold norm; cbn. unfold mnorm, vnorm; cbn.
    rewrite Q2R_one, Q2R_zero, sqrt_1, sqrt_0.
    pose proof dummy_precision_small; lra.
  - cbn. unfold norm; cbn. unfold mnorm, vnorm; cbn.
    rewrite Q2R_one, Q2R_zero, sqrt_1, sqrt_0.
    pose proof dummy_precision_small; lra.
Qed.


End LinearVariableFacts.

(** ** Facts about the binary64 embedding *)

Module Binary64Facts.

Import PrimFloat Binary64 PolynomialFacts.
Local Open Scope Z_scope.

(** *** Sizes *)

Lemma zip_with_length_b64 (f : float -> float -> float) : forall a b,
  length a = length b -> length (zip_with f a b) = length a.
Proof.
  induction a as [|x a IH]; intros [|y b] H; simpl in *; try discriminate;
    [reflexivity|].
  rewrite IH by lia. reflexivity.
Qed.

Lemma vplus_length_b64 n a b :
  length a = n -> length b = n -> length (vplus a b) = n.
Proof. intros Ha Hb. unfold vplus. rewrite zip_with_length_b64; congruence. Qed.

Lemma vscale_length_b64 k a : length (vscale k a) = length a.
Proof. apply length_map. Qed.

Lemma vtimes_length_b64 a k : length (vtimes a k) = length a.
Proof. apply length_map. Qed.

Lemma vzero_length_b64 n : length (vzero n) = n.
Proof. apply repeat_length. Qed.

Lemma vadd_returns_b64 a b : length a = length b -> vadd a b = Returns (vplus a b).
Proof. intros H. unfold vadd. rewrite H, Nat.eqb_refl. reflexivity. Qed.

Lemma col_returns_b64 m i c :
  nth_error (columns m) i = Some c -> col m (Z.of_nat i) = Returns c.
Proof.
  intros H. unfold col, cols.
  assert (Hlt : (i < length (columns m))%nat)
    by (apply nth_error_Some; congruence).
  replace ((0 <=? Z.of_nat i) && (Z.of_nat i <? Z.of_nat (length (columns m))))
    with true.
  - rewrite Nat2Z.id, H. reflexivity.
  - symmetry. apply andb_true_intro. split.
    + apply Z.leb_le. lia.
    + apply Z.ltb_lt. lia.
Qed.

Lemma init_cols_returns_b64 dim : forall points,
  Forall (fun pt => length pt = dim) points -> init_cols dim points = Returns points.
Proof.
  induction points as [|pt rest IH]; intros H; simpl; [reflexivity|].
  inversion H as [|? ? Hpt Hrest]; subst.
  rewrite Nat.eqb_refl, (IH Hrest). reflexivity.
Qed.

Lemma column_sized m i c :
  rectangular m -> nth_error (columns m) i = Some c -> length c = rows m.
Proof.
  intros Hrect H. unfold rectangular in Hrect. rewrite Forall_forall in Hrect.
  apply Hrect. eapply nth_error_In; eassumption.
Qed.

Lemma check_if_not_empty_passes_b64 p :
  non_empty p -> check_if_not_empty p = Returns tt.
Proof.
  unfold non_empty, check_if_not_empty. intros H.
  destruct (Z.eqb_spec (size (coefficients_ p)) 0); [contradiction|reflexivity].
Qed.

(** *** The two loops *)

Lemma horner_loop_nest_b64 c dt : forall k h,
  (k <= length (columns c))%nat ->
  rectangular c -> length h = rows c ->
  horner_loop c dt k h = Returns (horner_nest dt (firstn k (columns c)) h).
Proof.
  induction k as [|i IH]; intros h Hk Hrect Hh; [reflexivity|].
  destruct (nth_error (columns c) i) as [ci|] eqn:Hi;
    [|apply nth_error_None in Hi; lia].
  pose proof (column_sized _ Hrect Hi) as Hci.
  rewrite (firstn_snoc _ _ Hi).
  cbn [horner_loop]. rewrite (col_returns_b64 _ _ Hi). cbn [bind].
  rewrite vadd_returns_b64 by (rewrite vscale_length_b64; congruence). cbn [bind].
  rewrite IH; try lia; try assumption.
  - unfold horner_nest. rewrite fold_right_app. reflexivity.
  - apply vplus_length_b64; [rewrite vscale_length_b64|]; assumption.
Qed.

Lemma derivate_loop_accumulate_b64 c dt order : forall rest i cdt cur,
  0 <= i ->
  skipn (Z.to_nat i) (columns c) = rest ->
  rectangular c -> length cur = rows c ->
  derivate_loop c dt order (length rest) i cdt cur =
    Returns (accumulate dt order i cdt cur rest).
Proof.
  induction rest as [|ci rest IH]; intros i cdt cur Hi Hskip Hrect Hcur;
    [reflexivity|].
  destruct (skipn_cons _ _ Hskip) as [Hnth Hnext].
  pose proof (column_sized _ Hrect Hnth) as Hci.
  cbn [derivate_loop length accumulate].
  pose proof (col_returns_b64 _ _ Hnth) as Hcol.
  rewrite Z2Nat.id in Hcol by exact Hi. rewrite Hcol. cbn [bind].
  rewrite vadd_returns_b64
    by (rewrite vtimes_length_b64, vscale_length_b64; congruence).
  cbn [bind].
  apply IH; try assumption; try lia.
  - rewrite Z2Nat.inj_add by lia. rewrite Nat.add_1_r. exact Hnext.
  - apply vplus_length_b64;
      [|rewrite vtimes_length_b64, vscale_length_b64]; assumption.
Qed.

Lemma eval_nests_b64 Safe p t front top :
  well_formed p -> non_empty p -> accepted Safe p t ->
  columns (coefficients_ p) = front ++ [top] ->
  eval Safe p t = Returns (horner_nest (PrimFloat.sub t (T_min_ p)) front top).
Proof.
  intros (Hrect & Hdim & Hdeg & Hmax) Hne Hacc Hcols.
  assert (Htop : length top = rows (coefficients_ p)).
  { apply (@column_sized _ (length front) _ Hrect).
    rewrite Hcols, nth_error_app2 by lia. rewrite Nat.sub_diag. reflexivity. }
  assert (Hc : cols (coefficients_ p) = Z.of_nat (length front) + 1).
  { unfold cols. rewrite Hcols, length_app. simpl. lia. }
  unfold eval. rewrite (check_if_not_empty_passes_b64 Hne). cbn [bind].
  unfold accepted in Hacc. rewrite Hacc.
  rewrite Hdeg, Hc.
  replace (Z.of_nat (length front) + 1 - 1) with (Z.of_nat (length front)) by lia.
  rewrite (to_size_t_small (z := Z.of_nat (length front))) by int_range.
  assert (Hnth : nth_error (columns (coefficients_ p)) (length front) = Some top).
  { rewrite Hcols, nth_error_app2 by lia. rewrite Nat.sub_diag. reflexivity. }
  rewrite (col_returns_b64 _ _ Hnth). cbn [bind].
  rewrite to_int_to_size_t by int_range.
  replace (Z.to_nat (Z.of_nat (length front) - 1 + 1)) with (length front) by lia.
  rewrite horner_loop_nest_b64; try assumption.
  - f_equal. rewrite Hcols, firstn_app, Nat.sub_diag, firstn_all. simpl firstn.
    rewrite app_nil_r. reflexivity.
  - rewrite Hcols, length_app. lia.
Qed.

Lemma derivate_accumulates_b64 Safe p t order :
  well_formed p -> non_empty p -> accepted Safe p t ->
  Z.of_nat order <= INT_MAX ->
  derivate Safe p t order =
    Returns (accumulate (PrimFloat.sub t (T_min_ p)) order (Z.of_nat order) 1%float
               (vzero (dim_ p)) (skipn order (columns (coefficients_ p)))).
Proof.
  intros (Hrect & Hdim & Hdeg & Hmax) Hne Hacc Hord.
  assert (Hc : 1 <= cols (coefficients_ p)).
  { unfold non_empty, size, cols in *.
    destruct (columns (coefficients_ p)); [exfalso; apply Hne; simpl; lia | simpl; lia]. }
  unfold derivate. rewrite (check_if_not_empty_passes_b64 Hne). cbn [bind].
  unfold accepted in Hacc. rewrite Hacc.
  rewrite Hdeg.
  rewrite (to_size_t_small (z := cols (coefficients_ p) - 1)) by int_range.
  replace (cols (coefficients_ p) - 1 + 1) with (cols (coefficients_ p)) by lia.
  rewrite to_int_to_size_t by int_range.
  rewrite to_int_small by int_range.
  cbv zeta.
  replace (Z.to_nat (cols (coefficients_ p) - Z.of_nat order))
    with (length (skipn order (columns (coefficients_ p))))
    by (rewrite length_skipn; unfold cols; lia).
  apply derivate_loop_accumulate_b64; try assumption; try lia.
  - rewrite Nat2Z.id. reflexivity.
  - rewrite vzero_length_b64. exact Hdim.
Qed.

(** C4, operation by operation: on a well-formed, non-empty curve and
    at an accepted [t], [operator()] returns Horner's nesting
    [c0 + dt * (c1 + dt * (... + dt * cd))] of the coefficient columns,
    and [derivate(t, 0)] returns the power sum accumulated from the
    left, [((0 + 1 * c0 * 1) + dt * c1 * 1) + (dt * dt) * c2 * 1 + ...],
    each weight being the previous one times [dt]; every operation is
    a binary64 operation. *)
Theorem horner_and_accumulated_power_sum
    (Safe : bool) (p : polynomial) (t : float) (front : list vec) (top : vec) :
  well_formed p -> non_empty p -> accepted Safe p t ->
  columns (coefficients_ p) = front ++ [top] ->
  eval Safe p t = Returns (horner_nest (PrimFloat.sub t (T_min_ p)) front top) /\
  derivate Safe p t 0 =
    Returns (accumulate (PrimFloat.sub t (T_min_ p)) 0 0 1%float (vzero (dim_ p))
               (front ++ [top])).
Proof.
  intros Hw Hne Hacc Hcols. split.
  - apply eval_nests_b64; assumption.
  - rewrite derivate_accumulates_b64 by (try assumption; int_range).
    cbn [skipn]. rewrite Hcols. reflexivity.
Qed.

Lemma sample_well_formed : well_formed sample.
Proof.
  unfold well_formed, sample. cbn [coefficients_ dim_ degree_ rows].
  split; [repeat constructor|]. split; [reflexivity|]. split; [reflexivity|].
  cbn. int_range.
Defined.

Lemma sample_non_empty_b64 : non_empty sample.
Proof. unfold non_empty. vm_compute. discriminate. Defined.

Lemma horner_and_accumulated_power_sum_witness :
  eval true sample t_1_3 =
    Returns (horner_nest (PrimFloat.sub t_1_3 (T_min_ sample))
               [[1]; [2]]%float [3]%float) /\
  derivate true sample t_1_3 0 =
    Returns (accumulate (PrimFloat.sub t_1_3 (T_min_ sample)) 0 0 1%float
               (vzero (dim_ sample)) ([[1]; [2]] ++ [[3]])%float).
Proof.
  apply (@horner_and_accumulated_power_sum true sample t_1_3
           [[1]; [2]]%float [3]%float).
  - apply sample_well_formed.
  - apply sample_non_empty_b64.
  - unfold accepted. reflexivity.
  - reflexivity.
Defined.

(** C4 as stated fails in binary64: on [1 + 2 t + 3 t^2] over [[0, 2]]
    at [t = 1.3] Horner's scheme returns 8.670000000000002 and the
    power sum of [derivate(t, 0)] returns 8.67. *)
Lemma horner_and_power_sum_round_differently :
  eval true sample t_1_3 = Returns [v_8_67_up] /\
  derivate true sample t_1_3 0 = Returns [v_8_67] /\
  PrimFloat.eqb v_8_67_up v_8_67 = false.
Proof. repeat split. Qed.


(** *** The C0 constructor *)

Lemma C0_curve_returns Safe init end_ tmin tmax :
  length init = length end_ ->
  (Safe = true -> PrimFloat.ltb tmax tmin = false) ->
  polynomial_C0 Safe init end_ tmin tmax = Returns (C0_curve init end_ tmin tmax).
Proof.
  intros Hlen Hlt.
  unfold polynomial_C0. rewrite Hlen, Nat.eqb_refl. cbn [negb].
  unfold vsub. rewrite <- Hlen, Nat.eqb_refl. cbn [bind].
  unfold init_coeffs. rewrite init_cols_returns_b64.
  - cbn [bind]. unfold safe_check. cbn [T_max_ T_min_ coefficients_ degree_].
    destruct Safe; [|reflexivity].
    rewrite (Hlt eq_refl). reflexivity.
  - apply Forall_cons; [reflexivity|].
    apply Forall_cons; [|apply Forall_nil].
    unfold vdiv, vminus. rewrite length_map, zip_with_length_b64; congruence.
Qed.


(** C10: [safe_check] tests [T_min_ > T_max_] and nothing else about
    the interval, so with [min = max = t] the C0 constructor returns in
    both modes, and the second column of the curve is the quotient of
    [end - init] by [t - t]: no test precedes the division, whose
    result for [t = 1] is an infinity where [end] differs from [init]
    and a NaN where it does not. *)
Theorem C0_constructor_divides_by_zero
    (Safe : bool) (init end_ : vec) (t : float) :
  length init = length end_ ->
  PrimFloat.ltb t t = false ->
  polynomial_C0 Safe init end_ t t =
    Returns (mkPolynomial (length init)
               (mkMatrix (length init)
                  [init; vdiv (vminus end_ init) (PrimFloat.sub t t)])
               1 t t) /\
  polynomial_C0 Safe [0; 0; 1]%float [2; -4; 1]%float 1%float 1%float =
    Returns (mkPolynomial 3
               (mkMatrix 3 [[0; 0; 1]; [infinity; neg_infinity; nan]]%float)
               1 1%float 1%float).
Proof.
  intros Hlen Hlt. split.
  - apply (@C0_curve_returns Safe init end_ t t Hlen). intros _. exact Hlt.
  - destruct Safe; reflexivity.
Qed.

Lemma C0_constructor_divides_by_zero_witness :
  polynomial_C0 true [0; 0]%float [2; 4]%float 1%float 1%float =
    Returns (mkPolynomial 2
               (mkMatrix 2
                  [[0; 0]%float;
                   vdiv (vminus [2; 4]%float [0; 0]%float) (PrimFloat.sub 1 1)])
               1 1%float 1%float).
Proof.
  exact (proj1 (@C0_constructor_divides_by_zero true [0; 0]%float [2; 4]%float
                  1%float eq_refl eq_refl)).
Defined.




End Binary64Facts.


(** ** Further facts about polynomial curves *)

Module PolynomialExtra.

Import Polynomial VectorFacts PolynomialFacts.
Local Open Scope Z_scope.

(** *** Scalars *)

Lemma of_Z_mult a b : of_Z (a * b) = (of_Z a * of_Z b)%Qc.
Proof.
  apply Qc_is_canon. unfold of_Z, Qcmult, Q2Qc. cbn [this].
  rewrite !Qred_correct, inject_Z_mult. reflexivity.
Qed.

Lemma of_Z_zero : of_Z 0 = 0%Qc.
Proof. apply Qc_is_canon. reflexivity. Qed.


(** *** Values at the start of the interval *)




Lemma valid_accepts_T_max Safe p : valid Safe p -> accepted Safe p (T_max_ p).
Proof.
  intros (_ & _ & _ & _ & Ht). unfold accepted, out_of_range.
  rewrite Qcltb_irrefl. destruct Safe; [|apply andb_false_r].
  rewrite (Qcltb_ge (Ht eq_refl)). reflexivity.
Qed.



(** *** [fact] *)

Lemma fact_from_last n : forall count i r,
  fact_from n i (S count) r =
  (fact_from n i count r * of_Z (to_size_t (n - (i + Z.of_nat count))))%Qc.
Proof.
  induction count as [|count IH]; intros i r.
  - simpl. rewrite Z.add_0_r. reflexivity.
  - cbn [fact_from] in *. rewrite IH. f_equal. f_equal. f_equal. lia.
Qed.

Lemma fact_last n k :
  fact n (S k) = (fact n k * of_Z (to_size_t (n - Z.of_nat k)))%Qc.
Proof. unfold fact. rewrite fact_from_last. reflexivity. Qed.

Lemma fact_below n : forall order : nat,
  Z.of_nat n < 2 ^ 64 -> (order <= n)%nat ->
  (fact (Z.of_nat n) order * of_Z (factorial (n - order)))%Qc = of_Z (factorial n).
Proof.
  intros order Hn. induction order as [|k IH]; intros Hk.
  - rewrite fact_zero, Nat.sub_0_r. ring.
  - rewrite fact_last, <- IH by lia.
    rewrite to_size_t_small by lia.
    replace (n - k)%nat with (S (n - S k)) by lia.
    cbn [factorial]. rewrite of_Z_mult.
    replace (Z.of_nat (S (n - S k))) with (Z.of_nat n - Z.of_nat k) by lia.
    ring.
Qed.

Lemma fact_beyond n : forall order : nat,
  (n < order)%nat -> fact (Z.of_nat n) order = 0%Qc.
Proof.
  induction order as [|k IH]; intros Hk; [lia|].
  rewrite fact_last.
  destruct (Nat.eq_dec k n) as [->|Hne].
  - rewrite Z.sub_diag. unfold to_size_t. rewrite Z.mod_0_l by discriminate.
    rewrite of_Z_zero. ring.
  - rewrite IH by lia. ring.
Qed.

(** X2: for [n] up to 22, where every product involved is an integer
    that binary64 holds exactly, [fact(n, order)] is the falling
    factorial: multiplied by [(n - order)!] it gives [n!] for
    [order <= n], and it is [0] for [order > n], where the factor
    [n - n] occurs. *)
Theorem fact_is_falling_factorial (n order : nat) :
  (n <= 22)%nat ->
  ((order <= n)%nat ->
     (fact (Z.of_nat n) order * of_Z (factorial (n - order)))%Qc = of_Z (factorial n)) /\
  ((n < order)%nat -> fact (Z.of_nat n) order = 0%Qc).
Proof.
  intros Hn. split; [apply fact_below; int_range | apply fact_beyond].
Qed.

Lemma fact_is_falling_factorial_witness :
  (fact 5 2 * of_Z (factorial 3))%Qc = of_Z (factorial 5) /\ fact 5 7 = 0%Qc.
Proof.
  destruct (@fact_is_falling_factorial 5 2) as [H _]; [lia|].
  destruct (@fact_is_falling_factorial 5 7) as [_ H']; [lia|].
  split; [apply H; lia | apply H'; lia].
Defined.



(** *** [derivate] at the start of the interval and beyond the degree *)



(** X4: for an order above the degree (and within [int]) [derivate]
    returns the zero vector of [dim_] entries at every accepted [t]. *)
Theorem derivate_beyond_degree (Safe : bool) (p : polynomial) (t : Qc) (order : nat) :
  valid Safe p -> non_empty p -> accepted Safe p t ->
  degree_ p < Z.of_nat order -> Z.of_nat order <= INT_MAX ->
  derivate Safe p t order = Returns (vzero (dim_ p)).
Proof.
  intros Hv Hne Hacc Hdeg Hord.
  rewrite derivate_closed by assumption.
  destruct Hv as (_ & Hdim & Hd & Hmax & _).
  apply non_empty_sizes in Hne. destruct Hne as [_ Hc].
  rewrite Hd, to_size_t_small in Hdeg by int_range.
  unfold derivative_sum, cols in *.
  rewrite skipn_all2 by lia. rewrite Hdim. reflexivity.
Qed.

Lemma derivate_beyond_degree_witness :
  derivate true sample 1%Qc 3 = Returns (vzero (dim_ sample)).
Proof.
  apply (@derivate_beyond_degree true sample 1%Qc 3%nat).
  - apply sample_valid.
  - apply sample_non_empty.
  - unfold accepted. reflexivity.
  - vm_compute. reflexivity.
  - vm_compute. discriminate.
Defined.

(** *** [compute_derivate] *)

Lemma check_then_compute Safe order p :
  (check_if_not_empty p ;;; compute_derivate Safe order p) =
  compute_derivate Safe order p.
Proof.
  destruct order; cbn [compute_derivate];
    destruct (check_if_not_empty p) as [[]| |]; reflexivity.
Qed.

(** X5: differentiating [a] times and then [b] times is differentiating
    [a + b] times, errors included, on any curve. *)
Theorem compute_derivate_compose (Safe : bool) (a b : nat) (p : polynomial) :
  (q <- compute_derivate Safe a p ;; compute_derivate Safe b q) =
  compute_derivate Safe (a + b) p.
Proof.
  revert p. induction a as [|a IH]; intros p.
  - cbn [compute_derivate Nat.add].
    rewrite <- (check_then_compute Safe b p).
    destruct (check_if_not_empty p) as [[]| |]; reflexivity.
  - cbn [compute_derivate Nat.add].
    destruct (check_if_not_empty p) as [[]| |]; cbn [bind]; try reflexivity.
    destruct (deriv_coeff (coefficients_ p)) as [m| |]; cbn [bind]; try reflexivity.
    destruct (polynomial_of_coeff Safe m (T_min_ p) (T_max_ p)) as [d| |];
      cbn [bind]; try reflexivity.
    apply IH.
Qed.

Lemma compute_derivate_shape Safe : forall order p,
  valid Safe p -> non_empty p ->
  exists q,
    compute_derivate Safe order p = Returns q /\
    dim_ q = dim_ p /\ T_min_ q = T_min_ p /\ T_max_ q = T_max_ p /\
    degree_ q = Z.max (degree_ p - Z.of_nat order) 0.
Proof.
  induction order as [|order IH]; intros p Hv Hne.
  - exists p. cbn [compute_derivate].
    rewrite (check_if_not_empty_passes Hne). cbn [bind].
    destruct Hv as (_ & _ & Hd & Hmax & _).
    apply non_empty_sizes in Hne. destruct Hne as [_ Hc].
    rewrite Hd, to_size_t_small by int_range.
    repeat split; try reflexivity. lia.
  - destruct (deriv_coeff_step Hv Hne)
      as (m & Hm & Hrect & Hrows & Hcols & Hone & Hmore & _).
    assert (Ht : Safe = true -> (T_min_ p <= T_max_ p)%Qc)
      by (destruct Hv as (_ & _ & _ & _ & Ht); exact Ht).
    pose (d := mkPolynomial (rows m) m (cols m - 1) (T_min_ p) (T_max_ p)).
    assert (Hvd : valid Safe d) by (apply polynomial_of_coeff_valid; assumption).
    assert (Hned : non_empty d).
    { apply non_empty_sizes. cbn [d coefficients_].
      apply non_empty_sizes in Hne. rewrite Hrows. split; [apply Hne | lia]. }
    destruct (IH d Hvd Hned) as (q & Hq & Hdim & Hmin & Hmax & Hdeg).
    exists q. cbn [compute_derivate].
    rewrite (check_if_not_empty_passes Hne). cbn [bind].
    rewrite Hm. cbn [bind].
    rewrite polynomial_of_coeff_returns by assumption. cbn [bind].
    fold d. rewrite Hq.
    split; [reflexivity|].
    destruct Hv as (_ & Hdimp & Hd & Hmaxp & _).
    pose proof Hne as Hne'. apply non_empty_sizes in Hne'. destruct Hne' as [_ Hc].
    rewrite Hd, to_size_t_small by int_range.
    split; [rewrite Hdim; cbn [d dim_]; congruence|].
    split; [exact Hmin|]. split; [exact Hmax|].
    rewrite Hdeg. cbn [d degree_].
    destruct (Z.eq_dec (cols (coefficients_ p)) 1) as [E|E].
    + rewrite (Hone E). cbn. rewrite E. lia.
    + rewrite Hmore by lia. lia.
Qed.

(** X6: on a valid, non-empty curve [compute_derivate(order)] returns a
    curve of the same dimension and interval whose degree is the
    degree minus [order], and [0] once [order] exceeds the degree. *)
Theorem compute_derivate_lowers_degree (Safe : bool) (order : nat) (p : polynomial) :
  valid Safe p -> non_empty p ->
  exists q,
    compute_derivate Safe order p = Returns q /\
    dim_ q = dim_ p /\ T_min_ q = T_min_ p /\ T_max_ q = T_max_ p /\
    degree_ q = Z.max (degree_ p - Z.of_nat order) 0.
Proof. apply compute_derivate_shape. Qed.

Lemma compute_derivate_lowers_degree_witness :
  exists q,
    compute_derivate true 1 sample = Returns q /\
    dim_ q = dim_ sample /\ T_min_ q = T_min_ sample /\ T_max_ q = T_max_ sample /\
    degree_ q = Z.max (degree_ sample - Z.of_nat 1) 0.
Proof.
  apply (@compute_derivate_lowers_degree true 1%nat sample).
  - apply sample_valid.
  - apply sample_non_empty.
Defined.

(** *** [coeffAtDegree] and the constructor from points *)

(** X7: on a valid, non-empty curve [coeffAtDegree] returns the column
    asked for up to the degree and the empty point above it; it never
    fails. *)
Theorem coeffAtDegree_total (Safe : bool) (p : polynomial) (degree : Z) :
  valid Safe p -> non_empty p -> 0 <= degree ->
  coeffAtDegree p degree =
    Returns (if degree <=? degree_ p
             then nth (Z.to_nat degree) (columns (coefficients_ p)) []
             else []).
Proof.
  intros (_ & _ & Hd & Hmax & _) Hne Hpos.
  apply non_empty_sizes in Hne. destruct Hne as [_ Hc].
  unfold coeffAtDegree.
  rewrite Hd, to_size_t_small by int_range.
  destruct (Z.leb_spec degree (cols (coefficients_ p) - 1)) as [Hle|Hgt];
    [|reflexivity].
  unfold cols in *.
  destruct (nth_error (columns (coefficients_ p)) (Z.to_nat degree)) as [c|] eqn:E;
    [|apply nth_error_None in E; lia].
  rewrite (nth_error_nth _ _ _ E).
  rewrite <- (Z2Nat.id degree) at 1 by exact Hpos.
  apply col_returns. exact E.
Qed.

Lemma coeffAtDegree_total_witness :
  coeffAtDegree sample 1 =
    Returns (if 1 <=? degree_ sample
             then nth (Z.to_nat 1) (columns (coefficients_ sample)) []
             else []).
Proof.
  apply (@coeffAtDegree_total true sample 1).
  - apply sample_valid.
  - apply sample_non_empty.
  - discriminate.
Defined.

(** X8: the constructor from a non-empty collection of points that all
    have the size of the first is the constructor from the matrix
    whose columns are those points. *)
Theorem points_constructor_assembles_columns
    (Safe : bool) (first : vec) (rest : list vec) (tmin tmax : Qc) :
  Forall (fun pt => length pt = length first) rest ->
  polynomial_of_points Safe (first :: rest) tmin tmax =
  polynomial_of_coeff Safe (mkMatrix (length first) (first :: rest)) tmin tmax.
Proof.
  intros H. unfold polynomial_of_points, init_coeffs.
  rewrite init_cols_returns by (constructor; [reflexivity | exact H]).
  reflexivity.
Qed.

Lemma points_constructor_assembles_columns_witness :
  polynomial_of_points true [[1%Qc]; [of_Z 2]; [of_Z 3]] 0%Qc (of_Z 2) =
  polynomial_of_coeff true (mkMatrix 1 [[1%Qc]; [of_Z 2]; [of_Z 3]]) 0%Qc (of_Z 2).
Proof.
  apply (@points_constructor_assembles_columns true [1%Qc] [[of_Z 2]; [of_Z 3]]
           0%Qc (of_Z 2)).
  repeat constructor.
Defined.


(** *** Constructors and [safe_check] *)

Lemma columns_round_trip z :
  0 <= z <= INT_MAX -> to_int (to_size_t (to_size_t (z - 1) + 1)) = z.
Proof.
  intros H. destruct (Z.eq_dec z 0) as [->|Hz]; [reflexivity|].
  rewrite (to_size_t_small (z := z - 1)) by int_range.
  replace (z - 1 + 1) with z by lia.
  apply to_int_to_size_t. int_range.
Qed.

(** X9: in safe mode the constructor from a matrix of at most
    [INT_MAX] columns fails only on [max < min], with
    [std::invalid_argument]; the check of the degree against the
    columns cannot fire, and a matrix without columns is accepted. *)
Theorem coeff_constructor_safe_mode (m : matrix) (tmin tmax : Qc) :
  cols m <= INT_MAX ->
  polynomial_of_coeff true m tmin tmax =
    if Qcltb tmax tmin
    then Throws (invalid_argument "Tmin should be inferior to Tmax")
    else Returns (mkPolynomial (rows m) m (to_size_t (cols m - 1)) tmin tmax).
Proof.
  intros H. unfold polynomial_of_coeff, safe_check.
  cbn [T_max_ T_min_ coefficients_ degree_].
  destruct (Qcltb tmax tmin); [reflexivity|].
  rewrite columns_round_trip by (unfold cols in *; lia).
  rewrite Z.eqb_refl. reflexivity.
Qed.

Lemma coeff_constructor_safe_mode_witness :
  polynomial_of_coeff true (mkMatrix 3 []) 1%Qc 0%Qc =
    Throws (invalid_argument "Tmin should be inferior to Tmax") /\
  polynomial_of_coeff true (mkMatrix 3 []) 0%Qc 1%Qc =
    Returns (mkPolynomial 3 (mkMatrix 3 []) (to_size_t (0 - 1)) 0%Qc 1%Qc).
Proof.
  split.
  - apply (@coeff_constructor_safe_mode (mkMatrix 3 []) 1%Qc 0%Qc).
    vm_compute. discriminate.
  - apply (@coeff_constructor_safe_mode (mkMatrix 3 []) 0%Qc 1%Qc).
    vm_compute. discriminate.
Defined.

(** X11: the C0 constructor checks the sizes first and the interval
    second: with points of one size, safe mode throws
    [std::invalid_argument] on [max < min], non-safe mode returns. *)
Theorem C0_constructor_interval_check (init end_ : vec) (tmin tmax : Qc) :
  length init = length end_ -> (tmax < tmin)%Qc ->
  polynomial_C0 true init end_ tmin tmax =
    Throws (invalid_argument "Tmin should be inferior to Tmax") /\
  polynomial_C0 false init end_ tmin tmax =
    Returns (mkPolynomial (length init)
               (mkMatrix (length init)
                  [init; vdiv (vminus end_ init) (tmax - tmin)%Qc])
               1 tmin tmax).
Proof.
  intros Hlen Hlt. split.
  - unfold polynomial_C0. rewrite Hlen, Nat.eqb_refl. cbn [negb].
    rewrite vsub_returns by (symmetry; exact Hlen). cbn [bind].
    unfold init_coeffs. rewrite init_cols_returns.
    + cbn [bind]. unfold safe_check. cbn [T_max_ T_min_].
      apply Qcltb_lt in Hlt. rewrite Hlt. reflexivity.
    + apply Forall_cons; [exact Hlen|].
      apply Forall_cons; [|apply Forall_nil].
      rewrite vdiv_length. apply vminus_length; congruence.
  - apply polynomial_C0_returns; [exact Hlen | discriminate].
Qed.

Lemma C0_constructor_interval_check_witness :
  polynomial_C0 true [0%Qc] [1%Qc] 1%Qc 0%Qc =
    Throws (invalid_argument "Tmin should be inferior to Tmax") /\
  polynomial_C0 false [0%Qc] [1%Qc] 1%Qc 0%Qc =
    Returns (mkPolynomial 1
               (mkMatrix 1 [[0%Qc]; vdiv (vminus [1%Qc] [0%Qc]) (0 - 1)%Qc])
               1 1%Qc 0%Qc).
Proof.
  apply (@C0_constructor_interval_check [0%Qc] [1%Qc] 1%Qc 0%Qc).
  - reflexivity.
  - unfold Qclt. vm_compute. reflexivity.
Defined.

(** *** [isApprox] *)

Lemma Qceqb_eq x y : Qceqb x y = true <-> x = y.
Proof.
  unfold Qceqb. rewrite Qceq_alt. destruct (x ?= y)%Qc; split; congruence.
Qed.




















(** X13: two curves that compare approximately equal have the same
    interval, the same dimension and the same degree; two valid
    curves that agree on these are always compared, the matrices
    having one shape. *)
Theorem isApprox_needs_same_frame (Safe : bool) (p q : polynomial) (prec : Qc) :
  (isApprox p q prec = Returns true ->
     T_min_ p = T_min_ q /\ T_max_ p = T_max_ q /\
     dim_ p = dim_ q /\ degree_ p = degree_ q) /\
  (valid Safe p -> valid Safe q -> non_empty p -> non_empty q ->
     exists b, isApprox p q prec = Returns b).
Proof.
  split.
  - unfold isApprox.
    destruct (Qceqb (T_min_ p) (T_min_ q)) eqn:E1; [|discriminate].
    destruct (Qceqb (T_max_ p) (T_max_ q)) eqn:E2; [|discriminate].
    destruct (Nat.eqb (dim_ p) (dim_ q)) eqn:E3; [|discriminate].
    destruct (degree_ p =? degree_ q) eqn:E4; [|discriminate].
    intros _. apply Qceqb_eq in E1, E2. apply Nat.eqb_eq in E3. apply Z.eqb_eq in E4.
    repeat split; assumption.
  - intros (_ & Hdp & Hgp & Hmp & _) (_ & Hdq & Hgq & Hmq & _) Hnp Hnq.
    apply non_empty_sizes in Hnp, Hnq.
    destruct Hnp as [_ Hcp]. destruct Hnq as [_ Hcq].
    unfold isApprox.
    destruct (_ && _ && _ && _) eqn:E; [|eexists; reflexivity].
    apply andb_prop in E. destruct E as [E E4].
    apply andb_prop in E. destruct E as [_ E3].
    apply Nat.eqb_eq in E3. apply Z.eqb_eq in E4.
    rewrite Hgp, Hgq in E4. rewrite !to_size_t_small in E4 by int_range.
    unfold misApprox, msub, same_shape.
    replace (Nat.eqb (rows (coefficients_ p)) (rows (coefficients_ q))) with true
      by (symmetry; apply Nat.eqb_eq; congruence).
    replace (Nat.eqb (length (columns (coefficients_ p)))
                     (length (columns (coefficients_ q)))) with true
      by (symmetry; apply Nat.eqb_eq; unfold cols in E4; lia).
    cbn [andb bind]. eexists. reflexivity.
Qed.

Lemma isApprox_needs_same_frame_witness :
  (T_min_ sample = T_min_ sample /\ T_max_ sample = T_max_ sample /\
   dim_ sample = dim_ sample /\ degree_ sample = degree_ sample) /\
  exists b, isApprox sample (zero_curve sample) 1%Qc = Returns b.
Proof.
  destruct (@isApprox_needs_same_frame true sample sample 1%Qc) as [H _].
  destruct (@isApprox_needs_same_frame true sample (zero_curve sample) 1%Qc)
    as [_ H'].
  split.
  - apply H. vm_compute. reflexivity.
  - apply H'.
    + apply sample_valid.
    + apply (zero_curve_valid (sample_valid true) sample_non_empty).
    + apply sample_non_empty.
    + apply (zero_curve_valid (sample_valid true) sample_non_empty).
Defined.




(** *** The curve of the C0 constructor is a straight line *)




(** *** What safe mode guarantees after construction *)




End PolynomialExtra.

(** ** Further facts about linear variables *)

Module LinearVariableExtra.

Import LinearVariable VectorFacts.

Lemma mat_vec_cols_length r : forall cs x,
  Forall (fun c => length c = r) cs -> length (mat_vec_cols r cs x) = r.
Proof.
  induction cs as [|c cs IH]; intros x H; [apply vzero_length|].
  destruct x as [|xi x]; [apply vzero_length|].
  apply Forall_cons_iff in H. destruct H as [Hc Hcs].
  cbn [mat_vec_cols]. apply vplus_length;
    [rewrite vscale_length; exact Hc | apply IH; exact Hcs].
Qed.

Lemma mat_vec_cols_zero r : forall n x,
  mat_vec_cols r (repeat (vzero r) n) x = vzero r.
Proof.
  induction n as [|n IH]; intros x; [reflexivity|].
  destruct x as [|xi x]; [reflexivity|].
  cbn [repeat mat_vec_cols]. rewrite IH, vscale_vzero.
  apply vplus_vzero_r. apply vzero_length.
Qed.

Lemma eval_unflagged Safe w val :
  isZero w = false -> well_formed w ->
  length (columns (B w)) = length val ->
  eval Safe w val =
    Returns (vplus (mat_vec_cols (rows (B w)) (columns (B w)) val) (c w)).
Proof.
  intros Hz [Hrect Hc] Hval. unfold eval, mat_vec. rewrite Hz, Hval, Nat.eqb_refl.
  cbn [negb andb bind]. rewrite andb_false_r.
  apply vadd_returns. unfold B, c.
  rewrite mat_vec_cols_length by exact Hrect. symmetry. exact Hc.
Qed.


(** X18: a constant variable evaluates to its constant at every
    parameter vector of its own size; at a vector of another size safe
    mode throws [std::length_error]. *)
Theorem constant_evaluation (c0 val : vec) :
  (length val = length c0 ->
     eval true (linear_variable_constant c0) val = Returns c0 /\
     eval false (linear_variable_constant c0) val = Returns c0) /\
  (length val <> length c0 ->
     eval true (linear_variable_constant c0) val =
       Throws (length_error
         "Cannot evaluate linear variable, variable value does not have the correct dimension")).
Proof.
  split.
  - intros Hlen.
    assert (H : forall Safe, eval Safe (linear_variable_constant c0) val = Returns c0).
    { intros Safe. rewrite eval_unflagged.
      - f_equal. unfold linear_variable_constant, B, c, mzero. cbn [B_ c_ rows columns].
        rewrite mat_vec_cols_zero. apply vplus_vzero_l. reflexivity.
      - reflexivity.
      - unfold well_formed, linear_variable_constant, mzero, rectangular.
        cbn [B_ c_ rows columns]. split; [|reflexivity].
        apply Forall_forall. intros x Hx. apply repeat_spec in Hx. subst x.
        apply vzero_length.
      - unfold linear_variable_constant, B, mzero. cbn [B_ columns].
        rewrite repeat_length. symmetry. exact Hlen. }
    split; apply H.
  - intros Hlen. unfold eval, linear_variable_constant, isZero, B, mzero.
    cbn [zero B_ columns]. rewrite repeat_length.
    destruct (Nat.eqb_spec (length c0) (length val)) as [E|E]; [congruence|].
    reflexivity.
Qed.

Lemma constant_evaluation_witness :
  (eval true (linear_variable_constant [1%Qc; of_Z 2]) [0%Qc; of_Z 7] =
     Returns [1%Qc; of_Z 2] /\
   eval false (linear_variable_constant [1%Qc; of_Z 2]) [0%Qc; of_Z 7] =
     Returns [1%Qc; of_Z 2]) /\
  eval true (linear_variable_constant [1%Qc; of_Z 2]) [0%Qc] =
    Throws (length_error
      "Cannot evaluate linear variable, variable value does not have the correct dimension").
Proof.
  split.
  - apply (proj1 (@constant_evaluation [1%Qc; of_Z 2] [0%Qc; of_Z 7])). reflexivity.
  - apply (proj2 (@constant_evaluation [1%Qc; of_Z 2] [0%Qc])). simpl. lia.
Defined.

(** X19: the default-constructed zero element is neutral on the right
    of [+] and [-] but not on the left: with an unflagged right operand
    whose constant part has entries, [linear_variable() + w],
    [linear_variable() - w] and the compound forms violate Eigen's
    size precondition. *)
Theorem default_is_neutral_on_the_right_only (w : linear_variable) :
  plus w linear_variable_default = Returns (linear_variable_mixed (B w) (c w)) /\
  minus w linear_variable_default = Returns (linear_variable_mixed (B w) (c w)) /\
  plus_assign w linear_variable_default = Returns w /\
  (isZero w = false -> c w <> [] ->
     plus linear_variable_default w = Undefined /\
     minus linear_variable_default w = Undefined /\
     plus_assign linear_variable_default w = Undefined /\
     minus_assign linear_variable_default w = Undefined).
Proof.
  split; [reflexivity|]. split; [reflexivity|]. split; [reflexivity|].
  intros Hz Hc. unfold isZero, c in *.
  assert (Hlen : Nat.eqb 0 (length (c_ w)) = false).
  { destruct (c_ w); [contradiction | reflexivity]. }
  repeat split.
  - unfold plus, plus_assign, linear_variable_mixed, isZero, B, c.
    rewrite Hz. cbn [zero B_ c_ linear_variable_default].
    unfold madd. destruct (same_shape _ _); [|reflexivity]. cbn [bind B_ c_ zero].
    unfold vadd. cbn [length vzero repeat]. rewrite Hlen. reflexivity.
  - unfold minus, minus_assign, linear_variable_mixed, isZero, B, c.
    rewrite Hz. cbn [zero B_ c_ linear_variable_default].
    unfold msub. destruct (same_shape _ _); [|reflexivity]. cbn [bind B_ c_ zero].
    unfold vsub. cbn [length vzero repeat]. rewrite Hlen. reflexivity.
  - unfold plus_assign, isZero. rewrite Hz.
    cbn [zero B_ c_ linear_variable_default bind].
    unfold vadd. cbn [length vzero repeat]. rewrite Hlen. reflexivity.
  - unfold minus_assign, isZero. rewrite Hz.
    cbn [zero B_ c_ linear_variable_default bind].
    unfold vsub. cbn [length vzero repeat]. rewrite Hlen. reflexivity.
Qed.

Lemma default_is_neutral_on_the_right_only_witness :
  plus linear_variable_default one_point = Undefined /\
  minus linear_variable_default one_point = Undefined /\
  plus_assign linear_variable_default one_point = Undefined /\
  minus_assign linear_variable_default one_point = Undefined.
Proof.
  apply (proj2 (proj2 (proj2 (@default_is_neutral_on_the_right_only one_point)))).
  - reflexivity.
  - discriminate.
Defined.



End LinearVariableExtra.
